(** * The Global Interpreter Lock of [Python/ceval_gil.h]

    A shallow embedding of the GIL of [src/Python/ceval_gil.h] (POSIX
    branch, [FORCE_SWITCHING] defined) and the properties its
    specification states about it.

    The file has three layers.

    - The shared variables of the translation unit ([gil_locked],
      [gil_switch_number], [gil_last_holder], [gil_interval], the two
      mutexes and the two condition variables) are a record [gil];
      [create_gil], [recreate_gil], [gil_created], the switch-interval
      accessors and the [INTERVAL] macro are functions on it.
    - [take_gil] and [drop_gil] are run by many threads at once, so they are
      embedded statement by statement: every thread has a program counter
      (a [label] named after the source line it is about to execute) and
      its locals, and [exec] executes one event of one thread on the
      global state.  A blocked statement ([MUTEX_LOCK] on a taken mutex,
      a thread asleep in a condition wait) is an event that is not
      enabled.
    - The theorems: invariants of all reachable states, properties of the
      segment of an execution that spans one call, and evaluations of
      the functions at concrete inputs.

    What the embedding takes for granted:

    - the target is an LP64 POSIX system: [unsigned long] has 64 bits and
      [COND_PREPARE] is empty;
    - the pthread calls do not fail (the macros turn their failures into
      [Py_FatalError]; there is no such event here);
    - [pthread_cond_signal] wakes one of the threads asleep on the
      condition variable, and a condition wait may also return on its
      own, as POSIX allows (event [Spurious]); a timed wait may expire at
      any moment (event [Timeout]);
    - a thread calls [take_gil] with its own thread state, or with [NULL],
      when it is outside the lock, and calls [drop_gil], with any
      argument, only after a [take_gil] of its own has returned;
    - [create_gil] has run before the threads start. *)

From Stdlib Require Import ZArith PArith NArith List Bool Lia String.
Import ListNotations.
Local Open Scope Z_scope.

(** ** Machine integers and pointers *)

(** [unsigned long] on the LP64 POSIX targets of the first branch of the
    file: 64 bits, arithmetic modulo [2^64]. *)
Definition ULONG_MAX : Z := 2 ^ 64 - 1.

Definition ulong (z : Z) : Z := z mod (ULONG_MAX + 1).

(** C truth value of an [int] used as a condition. *)
Definition c_true (z : Z) : bool := negb (z =? 0).

(** A [PyThreadState *]: an address, [NULL] being 0.  The lock only ever
    compares these pointers. *)
Definition ptr := N.
Definition NULL : ptr := 0%N.

(** A thread of the process.  Thread [t] owns the thread state at address
    [tstate_of t]; distinct threads own distinct, non-null thread states. *)
Definition tid := positive.
Definition tstate_of (t : tid) : ptr := Npos t.

(** ** First some general settings (lines 11-14) *)

Definition DEFAULT_INTERVAL : Z := 5000.

(** ** The static variables of the file (lines 13, 197-217)

    A mutex is its owner, a condition variable the queue of the threads
    blocked on it.  [gil_drop_request] and [pending_async_exc] are declared
    in ceval.c, which includes this file. *)
Record gil : Type := mk_gil {
  gil_interval : Z;              (* static unsigned long gil_interval *)
  gil_locked : Z;                (* static volatile int gil_locked = -1 *)
  gil_switch_number : Z;         (* static unsigned long gil_switch_number *)
  gil_last_holder : ptr;         (* static PyThreadState *gil_last_holder *)
  gil_cond : list tid;           (* static COND_T gil_cond *)
  gil_mutex : option tid;        (* static MUTEX_T gil_mutex *)
  switch_cond : list tid;        (* static COND_T switch_cond *)
  switch_mutex : option tid;     (* static MUTEX_T switch_mutex *)
  gil_drop_request : bool;
  pending_async_exc : bool
}.

Definition set_gil_interval v g :=
  mk_gil v (gil_locked g) (gil_switch_number g) (gil_last_holder g) (gil_cond g)
    (gil_mutex g) (switch_cond g) (switch_mutex g) (gil_drop_request g)
    (pending_async_exc g).
Definition set_gil_locked v g :=
  mk_gil (gil_interval g) v (gil_switch_number g) (gil_last_holder g) (gil_cond g)
    (gil_mutex g) (switch_cond g) (switch_mutex g) (gil_drop_request g)
    (pending_async_exc g).
Definition set_gil_switch_number v g :=
  mk_gil (gil_interval g) (gil_locked g) v (gil_last_holder g) (gil_cond g)
    (gil_mutex g) (switch_cond g) (switch_mutex g) (gil_drop_request g)
    (pending_async_exc g).
Definition set_gil_last_holder v g :=
  mk_gil (gil_interval g) (gil_locked g) (gil_switch_number g) v (gil_cond g)
    (gil_mutex g) (switch_cond g) (switch_mutex g) (gil_drop_request g)
    (pending_async_exc g).
Definition set_gil_cond v g :=
  mk_gil (gil_interval g) (gil_locked g) (gil_switch_number g) (gil_last_holder g) v
    (gil_mutex g) (switch_cond g) (switch_mutex g) (gil_drop_request g)
    (pending_async_exc g).
Definition set_gil_mutex v g :=
  mk_gil (gil_interval g) (gil_locked g) (gil_switch_number g) (gil_last_holder g)
    (gil_cond g) v (switch_cond g) (switch_mutex g) (gil_drop_request g)
    (pending_async_exc g).
Definition set_switch_cond v g :=
  mk_gil (gil_interval g) (gil_locked g) (gil_switch_number g) (gil_last_holder g)
    (gil_cond g) (gil_mutex g) v (switch_mutex g) (gil_drop_request g)
    (pending_async_exc g).
Definition set_switch_mutex v g :=
  mk_gil (gil_interval g) (gil_locked g) (gil_switch_number g) (gil_last_holder g)
    (gil_cond g) (gil_mutex g) (switch_cond g) v (gil_drop_request g)
    (pending_async_exc g).
Definition set_gil_drop_request v g :=
  mk_gil (gil_interval g) (gil_locked g) (gil_switch_number g) (gil_last_holder g)
    (gil_cond g) (gil_mutex g) (switch_cond g) (switch_mutex g) v
    (pending_async_exc g).
Definition set_pending_async_exc v g :=
  mk_gil (gil_interval g) (gil_locked g) (gil_switch_number g) (gil_last_holder g)
    (gil_cond g) (gil_mutex g) (switch_cond g) (switch_mutex g) (gil_drop_request g)
    v.

(** The variables as the loader leaves them, before [create_gil]. *)
Definition static_gil : gil :=
  mk_gil DEFAULT_INTERVAL (-1) 0 NULL [] None [] None false false.

(** [#define INTERVAL (gil_interval >= 1 ? gil_interval : 1)] *)
Definition INTERVAL (g : gil) : Z :=
  if 1 <=? gil_interval g then gil_interval g else 1.

(** Lines 220-223. *)
Definition gil_created (g : gil) : bool := 0 <=? gil_locked g.

(** Lines 225-237: the four [MUTEX_INIT]/[COND_INIT], then the two
    assignments.  [gil_switch_number], [gil_interval] and the drop request
    are not touched. *)
Definition create_gil (g : gil) : gil :=
  set_gil_last_holder NULL
    (set_gil_locked 0
       (set_switch_cond []
          (set_gil_cond []
             (set_switch_mutex None
                (set_gil_mutex None g))))).

(** Lines 239-242. *)
Definition recreate_gil (g : gil) : gil := create_gil g.

(** Lines 323-331. *)
Definition _PyEval_SetSwitchInterval (microseconds : Z) (g : gil) : gil :=
  set_gil_interval microseconds g.

Definition _PyEval_GetSwitchInterval (g : gil) : Z := gil_interval g.

(** Modelled from the spec: the macros [SET_GIL_DROP_REQUEST] and
    [RESET_GIL_DROP_REQUEST] are defined in ceval.c, which is not part of
    the sources at hand; section 4.4 gives them as the writes of [true]
    and of [false] to the drop-request flag. *)
Definition SET_GIL_DROP_REQUEST (g : gil) : gil := set_gil_drop_request true g.
Definition RESET_GIL_DROP_REQUEST (g : gil) : gil := set_gil_drop_request false g.

(** Modelled from the spec: [_PyEval_SignalAsyncExc] lives in ceval.c;
    section 4.5 makes it an opaque hook.  The embedding records that it
    was called. *)
Definition _PyEval_SignalAsyncExc (g : gil) : gil := set_pending_async_exc true g.

(** ** The POSIX deadline of a timed wait (lines 76-81, 118-121) *)
Module Posix.

Record timeval : Type := mk_timeval { tv_sec : Z; tv_usec : Z }.

(** [(long) interval]: the conversion of an [unsigned long] to the
    64-bit signed type. *)
Definition to_long (z : Z) : Z := (z + 2 ^ 63) mod 2 ^ 64 - 2 ^ 63.

(** The three statements of [ADD_MICROSECONDS]; [/] and [%] of C
    truncate, as [Z.quot] and [Z.rem] do. *)
Definition ADD_MICROSECONDS (tv : timeval) (interval : Z) : timeval :=
  let usec := to_long (tv_usec tv + to_long interval) in
  let sec := tv_sec tv + Z.quot usec 1000000 in
  mk_timeval sec (Z.rem usec 1000000).

Definition microseconds_of (tv : timeval) : Z := tv_sec tv * 1000000 + tv_usec tv.

(** The deadline [COND_TIMED_WAIT(gil_cond, gil_mutex, INTERVAL, _)]
    hands to [pthread_cond_timedwait] when [gettimeofday] returned
    [now]. *)
Definition deadline (now : timeval) (g : gil) : timeval :=
  ADD_MICROSECONDS now (INTERVAL g).

End Posix.

(** ** Threads *)

(** Where a thread is.  [Idle] and [Holding] are client code, outside and
    inside the section the lock protects; the other labels are the source
    line of the statement the thread executes next.  [_w] is a thread
    asleep inside a condition wait, [_r] one that was woken and has to take
    the mutex again before the wait returns.  [COND_PREPARE] expands to
    nothing on POSIX, so lines 256 and 283 have no label. *)
Inductive label : Type :=
| Idle | Holding
(* take_gil *)
| T274    (* if (tstate == NULL) Py_FatalError *)
| T277    (* err = errno *)
| T278    (* MUTEX_LOCK(gil_mutex) *)
| T280    (* if (!gil_locked) goto _ready *)
| T284    (* while (gil_locked) *)
| T288    (* timed_out = 0; saved_switchnum = gil_switch_number *)
| T289    (* COND_TIMED_WAIT(gil_cond, gil_mutex, INTERVAL, timed_out) *)
| T289w | T289r
| T292    (* if (timed_out && gil_locked && ...) SET_GIL_DROP_REQUEST() *)
| T299    (* _ready: MUTEX_LOCK(switch_mutex) *)
| T302    (* gil_locked = 1 *)
| T304    (* if (tstate != gil_last_holder) *)
| T305    (* gil_last_holder = tstate *)
| T306    (* ++gil_switch_number *)
| T309    (* COND_SIGNAL(switch_cond) *)
| T310    (* MUTEX_UNLOCK(switch_mutex) *)
| T312    (* if (gil_drop_request) RESET_GIL_DROP_REQUEST() *)
| T315    (* if (tstate->async_exc != NULL) _PyEval_SignalAsyncExc() *)
| T319    (* MUTEX_UNLOCK(gil_mutex) *)
| T320    (* errno = err *)
(* drop_gil *)
| D247    (* if (!gil_locked) Py_FatalError *)
| D249    (* if (tstate != NULL && tstate != gil_last_holder) Py_FatalError *)
| D252    (* MUTEX_LOCK(gil_mutex) *)
| D253    (* gil_locked = 0 *)
| D254    (* COND_SIGNAL(gil_cond) *)
| D258    (* MUTEX_UNLOCK(gil_mutex) *)
| D261    (* if (gil_drop_request) *)
| D262    (* MUTEX_LOCK(switch_mutex) *)
| D264    (* if (gil_last_holder == tstate) *)
| D265    (* COND_WAIT(switch_cond, switch_mutex) *)
| D265w | D265r
| D266    (* MUTEX_UNLOCK(switch_mutex) *).

(** The part of the state only one thread sees: its position, the
    argument and the locals of the call it is in, its [errno], and the
    [async_exc] field of its thread state (true when not [NULL]).
    [wait_us] is the number of microseconds the thread handed to its last
    timed wait. *)
Record thread : Type := mk_thread {
  pc : label;
  tstate : ptr;
  err : Z;
  timed_out : bool;
  saved_switchnum : Z;
  wait_us : Z;
  errno : Z;
  async_exc : bool
}.

Definition set_pc v x :=
  mk_thread v (tstate x) (err x) (timed_out x) (saved_switchnum x) (wait_us x)
    (errno x) (async_exc x).
Definition set_tstate v x :=
  mk_thread (pc x) v (err x) (timed_out x) (saved_switchnum x) (wait_us x)
    (errno x) (async_exc x).
Definition set_err v x :=
  mk_thread (pc x) (tstate x) v (timed_out x) (saved_switchnum x) (wait_us x)
    (errno x) (async_exc x).
Definition set_timed_out v x :=
  mk_thread (pc x) (tstate x) (err x) v (saved_switchnum x) (wait_us x)
    (errno x) (async_exc x).
Definition set_saved_switchnum v x :=
  mk_thread (pc x) (tstate x) (err x) (timed_out x) v (wait_us x)
    (errno x) (async_exc x).
Definition set_wait_us v x :=
  mk_thread (pc x) (tstate x) (err x) (timed_out x) (saved_switchnum x) v
    (errno x) (async_exc x).
Definition set_errno v x :=
  mk_thread (pc x) (tstate x) (err x) (timed_out x) (saved_switchnum x) (wait_us x)
    v (async_exc x).
Definition set_async_exc v x :=
  mk_thread (pc x) (tstate x) (err x) (timed_out x) (saved_switchnum x) (wait_us x)
    (errno x) v.

Definition thread0 : thread := mk_thread Idle NULL 0 false 0 0 0 false.

(** ** The state of the process *)

(** [fatal] is the message of the [Py_FatalError] that ended the process,
    if one did. *)
Record state : Type := mk_state {
  sh : gil;
  th : tid -> thread;
  fatal : option string
}.

Definition upd (f : tid -> thread) (t : tid) (x : thread) : tid -> thread :=
  fun u => if Pos.eqb u t then x else f u.

Definition Py_FatalError (msg : string) (s : state) : state :=
  mk_state (sh s) (th s) (Some msg).

(** Thread [t] finishes its statement: shared variables [g], locals [x],
    next statement [l]. *)
Definition next (s : state) (t : tid) (l : label) (g : gil) (x : thread) : state :=
  mk_state g (upd (th s) t (set_pc l x)) (fatal s).

(** ** One statement of one thread *)

(** Lines 247-250, the two checks [drop_gil] makes before it touches
    anything: the message of the fatal error, if any. *)
Definition drop_gil_locked_check (g : gil) : option string :=
  if negb (c_true (gil_locked g))
  then Some "drop_gil: GIL is not locked"%string else None.

Definition drop_gil_tstate_check (g : gil) (ts : ptr) : option string :=
  if negb (N.eqb ts NULL) && negb (N.eqb ts (gil_last_holder g))
  then Some "drop_gil: wrong thread state"%string else None.

Definition drop_gil_checks (g : gil) (ts : ptr) : option string :=
  match drop_gil_locked_check g with
  | Some msg => Some msg
  | None => drop_gil_tstate_check g ts
  end.

(** Line 292, the condition under which the waiter asks for the GIL. *)
Definition no_switch_occurred (g : gil) (x : thread) : bool :=
  timed_out x && c_true (gil_locked g)
  && (gil_switch_number g =? saved_switchnum x).

(** [COND_SIGNAL] finds nobody to wake: the statement is a plain step.
    (When the queue is not empty the signal is the event [Wake].) *)
Definition signal_nobody (q : list tid) : bool :=
  match q with [] => true | _ => false end.

(** [take_gil (tstate)], lines 271-321: the statement at the program
    counter of [t].  [None]: the thread cannot move (it is asleep, or the
    mutex it wants is taken) or is not in [take_gil]. *)
Definition take_gil (s : state) (t : tid) : option state :=
  let g := sh s in
  let x := th s t in
  match pc x with
  | T274 =>
      if N.eqb (tstate x) NULL
      then Some (Py_FatalError "take_gil: NULL tstate" s)
      else Some (next s t T277 g x)
  | T277 => Some (next s t T278 g (set_err (errno x) x))
  | T278 =>
      match gil_mutex g with
      | None => Some (next s t T280 (set_gil_mutex (Some t) g) x)
      | Some _ => None
      end
  | T280 =>
      if negb (c_true (gil_locked g))
      then Some (next s t T299 g x)
      else Some (next s t T284 g x)
  | T284 =>
      if c_true (gil_locked g)
      then Some (next s t T288 g x)
      else Some (next s t T299 g x)
  | T288 =>
      Some (next s t T289 g
              (set_saved_switchnum (gil_switch_number g) (set_timed_out false x)))
  | T289 =>
      Some (next s t T289w
              (set_gil_cond (gil_cond g ++ [t]) (set_gil_mutex None g))
              (set_wait_us (INTERVAL g) x))
  | T289w => None
  | T289r =>
      match gil_mutex g with
      | None => Some (next s t T292 (set_gil_mutex (Some t) g) x)
      | Some _ => None
      end
  | T292 =>
      if no_switch_occurred g x
      then Some (next s t T284 (SET_GIL_DROP_REQUEST g) x)
      else Some (next s t T284 g x)
  | T299 =>
      match switch_mutex g with
      | None => Some (next s t T302 (set_switch_mutex (Some t) g) x)
      | Some _ => None
      end
  | T302 => Some (next s t T304 (set_gil_locked 1 g) x)
  | T304 =>
      if negb (N.eqb (tstate x) (gil_last_holder g))
      then Some (next s t T305 g x)
      else Some (next s t T309 g x)
  | T305 => Some (next s t T306 (set_gil_last_holder (tstate x) g) x)
  | T306 =>
      Some (next s t T309
              (set_gil_switch_number (ulong (gil_switch_number g + 1)) g) x)
  | T309 =>
      if signal_nobody (switch_cond g) then Some (next s t T310 g x) else None
  | T310 => Some (next s t T312 (set_switch_mutex None g) x)
  | T312 =>
      if gil_drop_request g
      then Some (next s t T315 (RESET_GIL_DROP_REQUEST g) x)
      else Some (next s t T315 g x)
  | T315 =>
      if async_exc x
      then Some (next s t T319 (_PyEval_SignalAsyncExc g) x)
      else Some (next s t T319 g x)
  | T319 => Some (next s t T320 (set_gil_mutex None g) x)
  | T320 => Some (next s t Holding g (set_errno (err x) x))
  | _ => None
  end.

(** [drop_gil (tstate)], lines 244-269, likewise. *)
Definition drop_gil (s : state) (t : tid) : option state :=
  let g := sh s in
  let x := th s t in
  match pc x with
  | D247 =>
      match drop_gil_locked_check g with
      | Some msg => Some (Py_FatalError msg s)
      | None => Some (next s t D249 g x)
      end
  | D249 =>
      match drop_gil_tstate_check g (tstate x) with
      | Some msg => Some (Py_FatalError msg s)
      | None => Some (next s t D252 g x)
      end
  | D252 =>
      match gil_mutex g with
      | None => Some (next s t D253 (set_gil_mutex (Some t) g) x)
      | Some _ => None
      end
  | D253 => Some (next s t D254 (set_gil_locked 0 g) x)
  | D254 =>
      if signal_nobody (gil_cond g) then Some (next s t D258 g x) else None
  | D258 => Some (next s t D261 (set_gil_mutex None g) x)
  | D261 =>
      if gil_drop_request g
      then Some (next s t D262 g x)
      else Some (next s t Idle g x)
  | D262 =>
      match switch_mutex g with
      | None => Some (next s t D264 (set_switch_mutex (Some t) g) x)
      | Some _ => None
      end
  | D264 =>
      if N.eqb (gil_last_holder g) (tstate x)
      then Some (next s t D265 g x)
      else Some (next s t D266 g x)
  | D265 =>
      Some (next s t D265w
              (set_switch_cond (switch_cond g ++ [t]) (set_switch_mutex None g)) x)
  | D265w => None
  | D265r =>
      match switch_mutex g with
      | None => Some (next s t D266 (set_switch_mutex (Some t) g) x)
      | Some _ => None
      end
  | D266 => Some (next s t Idle (set_switch_mutex None g) x)
  | _ => None
  end.

(** The statement at the program counter of [t]: one of [take_gil], one
    of [drop_gil], or nothing as long as the thread is in client code. *)
Definition stmt (s : state) (t : tid) : option state :=
  match pc (th s t) with
  | Idle | Holding => None
  | T274 | T277 | T278 | T280 | T284 | T288 | T289 | T289w | T289r | T292
  | T299 | T302 | T304 | T305 | T306 | T309 | T310 | T312 | T315 | T319
  | T320 => take_gil s t
  | D247 | D249 | D252 | D253 | D254 | D258 | D261 | D262 | D264 | D265
  | D265w | D265r | D266 => drop_gil s t
  end.

(** ** Events *)

(** What can happen to the process.  Besides the statements of the
    threads: the client calls the two functions; a signal wakes a sleeper
    of its choice; a timed wait expires; a condition wait returns although
    nobody signalled (POSIX allows [pthread_cond_wait] and
    [pthread_cond_timedwait] to do so); a library call or client code
    leaves a value in [errno]; somebody sets the switch interval or the
    [async_exc] field of a thread state. *)
Inductive event : Type :=
| CallTake (t : tid) (arg : ptr)
| CallDrop (t : tid) (arg : ptr)
| Run (t : tid)
| Wake (t : tid) (w : tid)
| Timeout (t : tid)
| Spurious (t : tid)
| LibErrno (t : tid) (v : Z)
| SetInterval (v : Z)
| SetAsyncExc (t : tid) (b : bool).

(** The statements during which code outside this file runs on the
    thread and may write its [errno]: client code and the calls of the
    pthread library, of [gettimeofday] and of the hook. *)
Definition in_foreign_code (l : label) : bool :=
  match l with
  | Idle | Holding
  | T278 | T289 | T289w | T289r | T299 | T309 | T310 | T315 | T319
  | D252 | D254 | D258 | D262 | D265 | D265w | D265r | D266 => true
  | _ => false
  end.

Definition remove_tid (t : tid) (q : list tid) : list tid :=
  List.remove Pos.eq_dec t q.

Definition mem_tid (t : tid) (q : list tid) : bool :=
  List.existsb (Pos.eqb t) q.

(** Thread [w] leaves its sleep on [gil_cond] with the given result. *)
Definition wake_gil_cond (s : state) (w : tid) (timeout : bool) : option state :=
  match pc (th s w) with
  | T289w =>
      Some (next s w T289r
              (set_gil_cond (remove_tid w (gil_cond (sh s))) (sh s))
              (set_timed_out timeout (th s w)))
  | _ => None
  end.

(** Thread [w] leaves its sleep on [switch_cond]. *)
Definition wake_switch_cond (s : state) (w : tid) : option state :=
  match pc (th s w) with
  | D265w =>
      Some (next s w D265r
              (set_switch_cond (remove_tid w (switch_cond (sh s))) (sh s))
              (th s w))
  | _ => None
  end.

Definition live (s : state) (e : event) : option state :=
  match e with
  | CallTake t arg =>
      (* a thread passes its own thread state, or none *)
      match pc (th s t) with
      | Idle =>
          if N.eqb arg NULL || N.eqb arg (tstate_of t)
          then Some (next s t T274 (sh s) (set_tstate arg (th s t)))
          else None
      | _ => None
      end
  | CallDrop t arg =>
      match pc (th s t) with
      | Holding => Some (next s t D247 (sh s) (set_tstate arg (th s t)))
      | _ => None
      end
  | Run t => stmt s t
  | Wake t w =>
      match pc (th s t) with
      | T309 =>
          if mem_tid w (switch_cond (sh s)) then
            match wake_switch_cond s w with
            | Some s1 => Some (next s1 t T310 (sh s1) (th s1 t))
            | None => None
            end
          else None
      | D254 =>
          if mem_tid w (gil_cond (sh s)) then
            match wake_gil_cond s w false with
            | Some s1 => Some (next s1 t D258 (sh s1) (th s1 t))
            | None => None
            end
          else None
      | _ => None
      end
  | Timeout t => wake_gil_cond s t true
  | Spurious t =>
      match pc (th s t) with
      | T289w => wake_gil_cond s t false
      | D265w => wake_switch_cond s t
      | _ => None
      end
  | LibErrno t v =>
      if in_foreign_code (pc (th s t))
      then Some (mk_state (sh s) (upd (th s) t (set_errno v (th s t))) (fatal s))
      else None
  | SetInterval v =>
      if (0 <=? v) && (v <=? ULONG_MAX)
      then Some (mk_state (_PyEval_SetSwitchInterval v (sh s)) (th s) (fatal s))
      else None
  | SetAsyncExc t b =>
      Some (mk_state (sh s) (upd (th s) t (set_async_exc b (th s t))) (fatal s))
  end.

(** One event.  After a fatal error the process is gone. *)
Definition exec (s : state) (e : event) : option state :=
  match fatal s with
  | Some _ => None
  | None => live s e
  end.

Fixpoint run (s : state) (evs : list event) : option state :=
  match evs with
  | [] => Some s
  | e :: evs' =>
      match exec s e with
      | Some s1 => run s1 evs'
      | None => None
      end
  end.

(** [steps P s s']: an execution from [s] to [s'] every step of which
    satisfies [P] (a condition on the state the step leaves and on the
    event). *)
Inductive steps (P : state -> event -> Prop) : state -> state -> Prop :=
| steps_refl : forall s, steps P s s
| steps_cons : forall s e s1 s',
    P s e -> exec s e = Some s1 -> steps P s1 s' -> steps P s s'.

Definition any_step : state -> event -> Prop := fun _ _ => True.

(** The process right after [create_gil ()]: whatever the variables held
    before, every thread is in client code and does not hold the GIL. *)
Definition boot (g : gil) (ths : tid -> thread) : state :=
  mk_state (create_gil g) (fun t => set_pc Idle (ths t)) None.

Definition initial (s : state) : Prop :=
  exists g ths,
    0 <= gil_switch_number g <= ULONG_MAX /\ s = boot g ths.

Definition reachable (s : state) : Prop :=
  exists s0, initial s0 /\ steps any_step s0 s.

(** The first [create_gil ()] of a process. *)
Definition boot0 : state := boot static_gil (fun _ => thread0).

(** ** Regions of the code *)

(** The thread holds [gil_mutex]: from a [MUTEX_LOCK(gil_mutex)] or the
    return of the timed wait to the wait or the [MUTEX_UNLOCK]. *)
Definition holds_gil_mutex (l : label) : bool :=
  match l with
  | T280 | T284 | T288 | T289 | T292 | T299 | T302 | T304 | T305 | T306
  | T309 | T310 | T312 | T315 | T319 | D253 | D254 | D258 => true
  | _ => false
  end.

(** The thread holds [switch_mutex]. *)
Definition holds_switch_mutex (l : label) : bool :=
  match l with
  | T302 | T304 | T305 | T306 | T309 | T310 | D264 | D265 | D266 => true
  | _ => false
  end.

(** The thread is the logical owner of the GIL: it has executed
    [gil_locked = 1] (line 302) and has not yet executed [gil_locked = 0]
    (line 253). *)
Definition owner (l : label) : bool :=
  match l with
  | T304 | T305 | T306 | T309 | T310 | T312 | T315 | T319 | T320
  | Holding | D247 | D249 | D252 | D253 => true
  | _ => false
  end.

(** The thread is between a completed [take_gil] and its matching
    [drop_gil]: the call of [take_gil] has returned, and the call of
    [drop_gil], if it was made, has not yet released the GIL. *)
Definition between_take_and_drop (l : label) : bool :=
  match l with
  | Holding | D247 | D249 | D252 | D253 => true
  | _ => false
  end.

(** The thread found the GIL free under [gil_mutex] and is about to own
    it (label [_ready]). *)
Definition ready (l : label) : bool :=
  match l with T299 | T302 => true | _ => false end.

(** The owner has made itself [gil_last_holder] (it is past lines
    304-305). *)
Definition published (l : label) : bool :=
  match l with
  | T306 | T309 | T310 | T312 | T315 | T319 | T320
  | Holding | D247 | D249 | D252 | D253 => true
  | _ => false
  end.

(** Inside [take_gil], past the check of line 274. *)
Definition take_checked (l : label) : bool :=
  match l with
  | T277 | T278 | T280 | T284 | T288 | T289 | T289w | T289r | T292
  | T299 | T302 | T304 | T305 | T306 | T309 | T310 | T312 | T315 | T319
  | T320 => true
  | _ => false
  end.

Definition in_take (l : label) : bool :=
  match l with T274 => true | _ => take_checked l end.

(** Inside [drop_gil], past the checks of lines 247-250. *)
Definition drop_checked (l : label) : bool :=
  match l with
  | D252 | D253 | D254 | D258 | D261 | D262 | D264 | D265 | D265w | D265r
  | D266 => true
  | _ => false
  end.

Definition in_drop (l : label) : bool :=
  match l with D247 | D249 => true | _ => drop_checked l end.

(** The thread is in the forced handoff: at, asleep in or returning from
    the [COND_WAIT] of line 265. *)
Definition in_handoff (l : label) : bool :=
  match l with D265 | D265w | D265r => true | _ => false end.

(** The thread has been [gil_last_holder] at least once. *)
Definition has_published (l : label) : bool :=
  published l || drop_checked l.

(** ** The invariant of the lock *)

Record Inv (s : state) : Prop := mk_Inv {
  inv_gil_mutex_held :
    forall t, holds_gil_mutex (pc (th s t)) = true -> gil_mutex (sh s) = Some t;
  inv_gil_mutex_owner :
    forall t, gil_mutex (sh s) = Some t -> holds_gil_mutex (pc (th s t)) = true;
  inv_switch_mutex_held :
    forall t, holds_switch_mutex (pc (th s t)) = true -> switch_mutex (sh s) = Some t;
  inv_switch_mutex_owner :
    forall t, switch_mutex (sh s) = Some t -> holds_switch_mutex (pc (th s t)) = true;
  inv_locked_range :
    gil_locked (sh s) = 0 \/ gil_locked (sh s) = 1;
  inv_owner_locked :
    forall t, owner (pc (th s t)) = true -> gil_locked (sh s) = 1;
  inv_ready_free :
    forall t, ready (pc (th s t)) = true -> gil_locked (sh s) = 0;
  inv_published :
    forall t, published (pc (th s t)) = true -> gil_last_holder (sh s) = tstate_of t;
  inv_take_tstate :
    forall t, take_checked (pc (th s t)) = true -> tstate (th s t) = tstate_of t;
  inv_drop_tstate :
    forall t, drop_checked (pc (th s t)) = true ->
              tstate (th s t) = NULL \/ tstate (th s t) = tstate_of t;
  inv_entry_tstate :
    forall t, pc (th s t) = T274 ->
              tstate (th s t) = NULL \/ tstate (th s t) = tstate_of t;
  inv_handoff_tstate :
    forall t, in_handoff (pc (th s t)) = true -> tstate (th s t) = tstate_of t;
  inv_has_published :
    forall t, has_published (pc (th s t)) = true -> gil_last_holder (sh s) <> NULL;
  inv_switch_number :
    0 <= gil_switch_number (sh s) <= ULONG_MAX;
  inv_owner_unique :
    forall t u, owner (pc (th s t)) = true -> owner (pc (th s u)) = true -> t = u;
  inv_locked_owner :
    gil_locked (sh s) = 1 -> exists t, owner (pc (th s t)) = true
}.

(** ** Executions *)

(** The threads whose locals an event changes. *)
Definition touches (e : event) (t : tid) : bool :=
  match e with
  | CallTake u _ | CallDrop u _ | Run u | Timeout u | Spurious u
  | LibErrno u _ | SetAsyncExc u _ => Pos.eqb u t
  | Wake u w => Pos.eqb u t || Pos.eqb w t
  | SetInterval _ => false
  end.

(** The event is the statement at label [l] of some thread. *)
Definition writer (s : state) (e : event) (l : label) : Prop :=
  exists u, e = Run u /\ pc (th s u) = l.

Definition returned_from_take (l : label) : bool :=
  match l with Holding => true | _ => false end.

(** The steps of an execution up to the return of the call of
    [take_gil] that thread [t] is in. *)
Definition inside_call (t : tid) : state -> event -> Prop :=
  fun s _ => returned_from_take (pc (th s t)) = false.

(** [run], checking [p] at every step. *)
Fixpoint run_checked (p : state -> event -> bool) (s : state) (evs : list event)
  : option state :=
  match evs with
  | [] => Some s
  | e :: evs' =>
      if p s e then
        match exec s e with
        | Some s1 => run_checked p s1 evs'
        | None => None
        end
      else None
  end.

(** The states an execution goes through, the first one included. *)
Fixpoint states_of (s : state) (evs : list event) : list state :=
  s :: match evs with
       | [] => []
       | e :: evs' =>
           match exec s e with
           | Some s1 => states_of s1 evs'
           | None => []
           end
       end.

(** ** What one call of [take_gil] keeps and changes *)

(** What [take_gil], entered by [t] with [errno = e0], keeps of it. *)
Definition errno_kept (t : tid) (e0 : Z) (s : state) : Prop :=
  match pc (th s t) with
  | T274 | T277 | Holding => errno (th s t) = e0
  | T278 | T280 | T284 | T288 | T289 | T289w | T289r | T292 | T299 | T302
  | T304 | T305 | T306 | T309 | T310 | T312 | T315 | T319 | T320 =>
      err (th s t) = e0
  | _ => False
  end.



(** ** The forced handoff *)

(** The steps of an execution during which nobody else becomes the last
    holder and the sleep of [t] is not cut short by a spurious wakeup. *)
Definition no_successor_yet (t : tid) : state -> event -> Prop :=
  fun s e => gil_last_holder (sh s) = tstate_of t /\ e <> Spurious t.

(** Where [drop_gil (tstate_of t)], called with the drop request set, can
    be as long as [no_successor_yet]. *)
Definition awaiting_successor (t : tid) (s : state) : Prop :=
  tstate (th s t) = tstate_of t /\
  match pc (th s t) with
  | D247 | D249 | D252 | D253 | D254 | D258 | D261 =>
      gil_drop_request (sh s) = true
  | D262 | D264 | D265 | D265w => True
  | _ => False
  end.

(** ** Counting the switches *)

(** The thread that takes the GIL in this step, if the step is line 302
    ("We now hold the GIL"). *)
Definition acquires (s : state) (e : event) : list tid :=
  match e with
  | Run t => match pc (th s t) with T302 => [t] | _ => [] end
  | _ => []
  end.

(** The identities of the successful takes of an execution, in order. *)
Fixpoint takes (s : state) (evs : list event) : list tid :=
  match evs with
  | [] => []
  | e :: evs' =>
      match exec s e with
      | Some s1 => acquires s e ++ takes s1 evs'
      | None => []
      end
  end.

(** K: the number of positions at which a sequence repeats its previous
    element. *)
Fixpoint adjacent_equal (l : list tid) : nat :=
  match l with
  | a :: tl =>
      match tl with
      | b :: _ => (if Pos.eqb a b then 1 else 0) + adjacent_equal tl
      | [] => 0
      end
  | [] => 0
  end%nat.

(** The last holder a sequence of takes leaves. *)
Definition last_holder_of (l : list tid) : ptr := last (map tstate_of l) NULL.

(** N - K. *)
Definition switches (l : list tid) : Z :=
  Z.of_nat (List.length l) - Z.of_nat (adjacent_equal l).

(** The increase of the switch number the specification gives for the
    takes [l]: N - K - (1 if the very first ever take is among them). *)
Definition specified_increase (l : list tid) (first_ever : bool) : Z :=
  switches l - (if first_ever then 1 else 0).

(** The taker is inside lines 304-307: it holds the GIL and has not
    finished counting itself. *)
Definition updating (l : label) : bool :=
  match l with T304 | T305 | T306 => true | _ => false end.

(** No take is in the middle of lines 304-307.  (A thread there holds
    [switch_mutex].) *)
Definition counting_done (s : state) : Prop :=
  match switch_mutex (sh s) with
  | Some t => updating (pc (th s t)) = false
  | None => True
  end.

(** The variables agree with the takes [l], counted from [sw0]. *)
Definition settled (sw0 : Z) (l : list tid) (s : state) : Prop :=
  gil_last_holder (sh s) = last_holder_of l /\
  gil_switch_number (sh s) = ulong (sw0 + switches l).

(** How the variables stand to the takes [l] made so far.  A thread inside
    lines 304-307 holds [switch_mutex]; it is the last of [l] and the
    variables are still those of the takes before it, step by step. *)
Definition accounted (sw0 : Z) (l : list tid) (s : state) : Prop :=
  match switch_mutex (sh s) with
  | Some t =>
      match pc (th s t) with
      | T304 => exists l', l = l' ++ [t] /\ settled sw0 l' s
      | T305 =>
          exists l', l = l' ++ [t] /\ settled sw0 l' s /\
                     last_holder_of l' <> tstate_of t
      | T306 =>
          exists l', l = l' ++ [t] /\
                     gil_last_holder (sh s) = tstate_of t /\
                     gil_switch_number (sh s) = ulong (sw0 + switches l') /\
                     last_holder_of l' <> tstate_of t
      | _ => settled sw0 l s
      end
  | None => settled sw0 l s
  end.

(** ** Scenarios *)

Definition tA : tid := 1%positive.
Definition tB : tid := 2%positive.

Definition runs_of (n : nat) (t : tid) : list event := List.repeat (Run t) n.

(** [take_gil (tstate_of t)] by a thread that finds the GIL free and is
    not its last holder: the call and its fifteen statements. *)
Definition take_free (t : tid) : list event :=
  CallTake t (tstate_of t) :: runs_of 15 t.

(** [drop_gil (tstate_of t)] when nobody asked for the GIL and nobody
    sleeps on [gil_cond]: the call and its seven statements. *)
Definition drop_free (t : tid) : list event :=
  CallDrop t (tstate_of t) :: runs_of 7 t.

(** The process a [fork] leaves in the child once [recreate_gil ()] has
    run: the variables of the parent, the primitives made anew, no thread
    inside the lock. *)
Definition after_fork (g : gil) (ths : tid -> thread) : state :=
  mk_state (recreate_gil g) (fun t => set_pc Idle (ths t)) None.

(** The first taker has executed line 302 and not yet line 305. *)
Definition first_take_window : list event :=
  CallTake tA (tstate_of tA) :: runs_of 6 tA.

(** [A] holds the GIL; [B] asks for it, sleeps, times out, sets the drop
    request and sleeps again. *)
Definition contended : list event :=
  take_free tA ++
  CallTake tB (tstate_of tB) :: runs_of 7 tB ++
  Timeout tB :: runs_of 5 tB.

(** [A], in [drop_gil], releases on request: it signals [B], then waits
    for a successor at line 265; the wait returns spuriously before [B]
    has run. *)
Definition drop_cut_short : list event :=
  runs_of 4 tA ++ Wake tA tB :: runs_of 5 tA ++ Spurious tA :: runs_of 2 tA.

(** The state an execution from the first [create_gil ()] ends in. *)
Definition state_after (evs : list event) : state :=
  match run boot0 evs with
  | Some s => s
  | None => boot0
  end.

(** [A] takes and drops the GIL; [B] has found it free and is at
    [_ready]. *)
Definition second_taker_ready : list event :=
  take_free tA ++ drop_free tA ++ CallTake tB (tstate_of tB) :: runs_of 4 tB.

(** [B] goes from [_ready] to the end of [take_gil] while [A] comes back
    for the GIL. *)
Definition second_taker_through : list event :=
  runs_of 3 tB ++ CallTake tA (tstate_of tA) :: runs_of 2 tA ++ runs_of 8 tB.

(** [A] takes the GIL twice in a row, then [B] takes it. *)
Definition three_takes : list event :=
  take_free tA ++ drop_free tA ++
  CallTake tA (tstate_of tA) :: runs_of 13 tA ++ drop_free tA ++
  take_free tB.

(** Client code leaves 5 in [errno] and calls [take_gil]. *)
Definition errno_entry : list event :=
  [LibErrno tA 5; CallTake tA (tstate_of tA)].

(** The call runs to its end; [pthread_mutex_lock] leaves 11 in [errno]. *)
Definition errno_clobbered : list event :=
  runs_of 2 tA ++ LibErrno tA 11 :: runs_of 13 tA.

(** [A] releases with [drop_gil (NULL)] while the drop request is set and
    has arrived at line 264. *)
Definition drop_NULL_at_264 : list event :=
  contended ++ CallDrop tA NULL :: runs_of 4 tA ++ Wake tA tB :: runs_of 3 tA.

Definition not_returned (t : tid) : state -> event -> bool :=
  fun s _ => negb (returned_from_take (pc (th s t))).

Definition last_holder_is (t : tid) (s : state) : bool :=
  N.eqb (gil_last_holder (sh s)) (tstate_of t).

(** ** One iteration of the wait loop (lines 288-294) *)



(** How an event ends the timed wait of [t]: [true] when the wait
    expires ([ETIMEDOUT]), [false] when the thread is signalled or wakes
    spuriously; nothing when the event is none of these. *)
Definition wait_return (t : tid) (e : event) : list bool :=
  match e with
  | Timeout u => if Pos.eqb u t then [true] else []
  | Spurious u => if Pos.eqb u t then [false] else []
  | Wake _ w => if Pos.eqb w t then [false] else []
  | _ => []
  end.

(** The returns of the timed wait of [t] in an execution, in order. *)
Definition wait_returns (t : tid) (evs : list event) : list bool :=
  List.flat_map (wait_return t) evs.


Definition tC : tid := 3%positive.

(** [A] holds the GIL; [B] is in the wait loop, at line 288. *)
Definition waiter_at_288 : list event :=
  take_free tA ++ CallTake tB (tstate_of tB) :: runs_of 5 tB.

(** [B] sleeps, its wait expires, and it relocks [gil_mutex]. *)
Definition timed_wait_expires : list event :=
  runs_of 2 tB ++ [Timeout tB; Run tB].

(** [B] sleeps and wakes without a signal before the interval is over. *)
Definition timed_wait_cut_short : list event :=
  runs_of 2 tB ++ [Spurious tB; Run tB].

(** [A] holds the GIL and [C] sleeps in the timed wait; [B] is at line
    288. *)
Definition two_waiters : list event :=
  take_free tA ++
  CallTake tC (tstate_of tC) :: runs_of 7 tC ++
  CallTake tB (tstate_of tB) :: runs_of 5 tB.

(** [B] sleeps; [A] drops the GIL and signals [C], which takes it; then
    the wait of [B] expires. *)
Definition overtaken_while_asleep : list event :=
  runs_of 2 tB ++
  CallDrop tA (tstate_of tA) :: runs_of 4 tA ++ Wake tA tC :: runs_of 2 tA ++
  runs_of 14 tC ++
  [Timeout tB; Run tB].

(** ** More of the file *)

(** The deadline as [pthread_cond_timedwait] gets it (lines 120-121):
    [ts.tv_nsec = deadline.tv_usec * 1000]. *)
Definition timespec_nsec (tv : Posix.timeval) : Z := Posix.tv_usec tv * 1000.

(** The Windows branch of [COND_TIMED_WAIT] (line 179) hands
    [microseconds / 1000] milliseconds to [WaitForMultipleObjects]. *)
Module Nt.

Definition timeout_ms (g : gil) : Z := INTERVAL g / 1000.

End Nt.

(** The statements that give a mutex back, by [MUTEX_UNLOCK] or by a
    condition wait, and the statements that take one. *)
Definition releases_gil_mutex (l : label) : bool :=
  match l with T289 | T319 | D258 => true | _ => false end.

Definition releases_switch_mutex (l : label) : bool :=
  match l with T310 | D265 | D266 => true | _ => false end.

Definition locks_gil_mutex (l : label) : bool :=
  match l with T278 | T289r | D252 => true | _ => false end.

Definition locks_switch_mutex (l : label) : bool :=
  match l with T299 | D262 | D265r => true | _ => false end.

(** The new holder is past the reset of line 313 and still holds
    [gil_mutex]. *)
(** The thread has executed [gil_locked = 0] (line 253) and still holds
    [gil_mutex]. *)
Definition released (l : label) : bool :=
  match l with D254 | D258 => true | _ => false end.

Definition request_cleared (l : label) : bool :=
  match l with T315 | T319 => true | _ => false end.

(** A taker is between the assignment of [gil_last_holder] and the
    signal on [switch_cond] (lines 305-309). *)
Definition announcing (s : state) : Prop :=
  exists u, pc (th s u) = T306 \/ pc (th s u) = T309.

(** What else every reachable state satisfies: the request is cleared for
    a new holder; a thread at line 305 is not the last holder; a thread
    about to sleep in the forced handoff is the last holder, a sleeper is
    so too until its successor, which is then about to signal, has put
    itself there; there is at most one sleeper and it is queued on
    [switch_cond]. *)
Record Inv2 (s : state) : Prop := mk_Inv2 {
  inv_request_cleared :
    forall t, request_cleared (pc (th s t)) = true ->
              gil_drop_request (sh s) = false;
  inv_new_holder :
    forall t, pc (th s t) = T305 -> gil_last_holder (sh s) <> tstate_of t;
  inv_before_sleep :
    forall t, pc (th s t) = D265 -> gil_last_holder (sh s) = tstate_of t;
  inv_sleeper :
    forall t, pc (th s t) = D265w ->
              gil_last_holder (sh s) = tstate_of t \/ announcing s;
  inv_one_sleeper :
    forall t u, pc (th s t) = D265w -> pc (th s u) = D265w -> t = u;
  inv_sleeper_queued :
    forall t, pc (th s t) = D265w -> In t (switch_cond (sh s));
  inv_released :
    forall t, released (pc (th s t)) = true -> gil_locked (sh s) = 0;
  inv_waiter_queued :
    forall t, pc (th s t) = T289w -> In t (gil_cond (sh s))
}.

(** The check of [no_successor_yet]. *)
Definition no_successor_yet_b (t : tid) : state -> event -> bool :=
  fun s e =>
    N.eqb (gil_last_holder (sh s)) (tstate_of t)
    && match e with Spurious u => negb (Pos.eqb u t) | _ => true end.

(** [A], in [drop_gil] on request, signals [B] and goes to sleep at line
    265; [B] wakes up, finds the GIL free and is about to take it. *)
Definition drop_waits : list event :=
  runs_of 4 tA ++ Wake tA tB :: runs_of 5 tA ++ runs_of 5 tB.

(** [B] has asked for the GIL; [A] calls [drop_gil], signals [B] and falls
    asleep at line 265; [B] takes the GIL and is about to signal
    [switch_cond] (line 309). *)
Definition handoff_announced : list event :=
  contended ++ CallDrop tA (tstate_of tA) :: drop_waits ++ runs_of 3 tB.

(** [B] has woken [A] and gone past lines 312-314. *)
Definition handoff_cleared : list event :=
  handoff_announced ++ Wake tB tA :: runs_of 2 tB.

(** The first taker is at line 310, about to unlock [switch_mutex]. *)
Definition first_take_at_310 : list event :=
  CallTake tA (tstate_of tA) :: runs_of 10 tA.

(** The first taker is at line 302, about to write [gil_locked = 1]. *)
Definition first_take_at_302 : list event :=
  CallTake tA (tstate_of tA) :: runs_of 5 tA.

(** A thread whose [async_exc] is set takes the GIL and is at line 315. *)
Definition async_take : list event :=
  SetAsyncExc tA true :: CallTake tA (tstate_of tA) :: runs_of 12 tA.

(** [A] holds the GIL and [B] sleeps in the timed wait; [A] calls
    [drop_gil] and is about to signal [gil_cond] (line 254). *)
Definition release_signal : list event :=
  contended ++ CallDrop tA (tstate_of tA) :: runs_of 4 tA.
(** * Proofs *)

(** ** The invariant is kept by every event *)

Arguments ulong : simpl never.
Arguments ULONG_MAX : simpl never.

Lemma ulong_range : forall z, 0 <= ulong z <= ULONG_MAX.
Proof.
  intros z. unfold ulong.
  assert (0 < ULONG_MAX + 1) by (unfold ULONG_MAX; lia).
  pose proof (Z.mod_pos_bound z (ULONG_MAX + 1) H). lia.
Qed.

Lemma tstate_of_not_NULL : forall t, tstate_of t <> NULL.
Proof. intros t; unfold tstate_of, NULL; discriminate. Qed.

Lemma tstate_of_inj : forall t u, tstate_of t = tstate_of u -> t = u.
Proof. unfold tstate_of; intros t u H; congruence. Qed.

(* Premises that have been computed: use them or drop them. *)
Ltac tidy :=
  repeat match goal with
  | H : true = true -> _ |- _ => specialize (H eq_refl)
  | H : false = true -> _ |- _ => clear H
  | H : ?a = ?a -> _ |- _ => specialize (H eq_refl)
  | H : Some _ = None -> _ |- _ => clear H
  | H : None = Some _ -> _ |- _ => clear H
  end.

(* Everything the invariant says about thread [t]. *)
Ltac about I t :=
  pose proof (inv_gil_mutex_held _ I t);
  pose proof (inv_gil_mutex_owner _ I t);
  pose proof (inv_switch_mutex_held _ I t);
  pose proof (inv_switch_mutex_owner _ I t);
  pose proof (inv_owner_locked _ I t);
  pose proof (inv_ready_free _ I t);
  pose proof (inv_published _ I t);
  pose proof (inv_take_tstate _ I t);
  pose proof (inv_drop_tstate _ I t);
  pose proof (inv_entry_tstate _ I t);
  pose proof (inv_handoff_tstate _ I t);
  pose proof (inv_has_published _ I t).

Ltac split_if :=
  match goal with
  | H : context [if ?c then _ else _] |- _ => destruct c eqn:?
  | H : context [match gil_mutex ?g with _ => _ end] |- _ => destruct (gil_mutex g) eqn:?
  | H : context [match switch_mutex ?g with _ => _ end] |- _ => destruct (switch_mutex g) eqn:?
  | H : context [match drop_gil_locked_check ?g with _ => _ end] |- _ =>
      destruct (drop_gil_locked_check g) eqn:?
  | H : context [match drop_gil_tstate_check ?g ?a with _ => _ end] |- _ =>
      destruct (drop_gil_tstate_check g a) eqn:?
  end.

Ltac case_thread u t :=
  destruct (Pos.eqb_spec u t) as [->|?].

Ltac finish :=
  first [ assumption | discriminate | congruence | lia | apply ulong_range
        | solve [intuition congruence] ].

Lemma drop_gil_tstate_check_None : forall g a,
  drop_gil_tstate_check g a = None -> a = NULL \/ a = gil_last_holder g.
Proof.
  unfold drop_gil_tstate_check; intros g a H.
  destruct (N.eqb_spec a NULL); [now left|].
  destruct (N.eqb_spec a (gil_last_holder g)); [now right|]. discriminate.
Qed.

Lemma drop_gil_locked_check_None : forall g,
  drop_gil_locked_check g = None -> gil_locked g <> 0.
Proof.
  unfold drop_gil_locked_check, c_true; intros g H.
  destruct (Z.eqb_spec (gil_locked g) 0); [discriminate|assumption].
Qed.

Lemma c_true_false : forall z, c_true z = false -> z = 0.
Proof. unfold c_true; intros z H; apply negb_false_iff in H; now apply Z.eqb_eq. Qed.

Lemma c_true_true : forall z, c_true z = true -> z <> 0.
Proof. unfold c_true; intros z H; apply negb_true_iff in H; now apply Z.eqb_neq. Qed.

Lemma ready_holds_gil_mutex : forall l, ready l = true -> holds_gil_mutex l = true.
Proof. destruct l; simpl; congruence. Qed.

Lemma published_owner : forall l, published l = true -> owner l = true.
Proof. destruct l; simpl; congruence. Qed.

Ltac bools :=
  repeat match goal with
  | H : c_true _ = true |- _ => apply c_true_true in H
  | H : c_true _ = false |- _ => apply c_true_false in H
  | H : negb _ = true |- _ => apply negb_true_iff in H
  | H : negb _ = false |- _ => apply negb_false_iff in H
  | H : N.eqb _ _ = true |- _ => apply N.eqb_eq in H
  | H : N.eqb _ _ = false |- _ => apply N.eqb_neq in H
  | H : drop_gil_tstate_check _ _ = None |- _ => apply drop_gil_tstate_check_None in H
  | H : drop_gil_locked_check _ = None |- _ => apply drop_gil_locked_check_None in H
  end.

Ltac other I t u Huniq Hpc :=
  let s := match type of I with Inv ?s => s end in
  let X := fresh "X" in
  let Y := fresh "Y" in
  about I u;
  pose proof (ready_holds_gil_mutex (pc (th s u)));
  pose proof (published_owner (pc (th s u)));
  pose proof (Huniq t u) as X; rewrite Hpc in X; simpl in X;
  pose proof (Huniq u t) as Y; rewrite Hpc in Y; simpl in Y.

Ltac unary I t Huniq Hpc :=
  let u := fresh "u" in
  intros u; unfold upd; case_thread u t; simpl;
  [ | other I t u Huniq Hpc ]; tidy; intros; tidy;
  try finish.

Ltac binary I t Huniq Hpc :=
  let u := fresh "u" in
  let v := fresh "v" in
  intros u v; unfold upd; case_thread u t; case_thread v t; simpl;
  intros; try reflexivity; try discriminate;
  match goal with
  | |- t = ?v => other I t v Huniq Hpc
  | |- ?u = t => other I t u Huniq Hpc
  | |- ?u = ?v => apply Huniq; assumption
  end; tidy; try finish.

Ltac some_owner I t Hex1 Hpc :=
  simpl; intros;
  first
    [ exists t; unfold upd; rewrite Pos.eqb_refl; reflexivity
    | discriminate
    | let w := fresh "w" in
      let Hw := fresh "Hw" in
      destruct Hex1 as [w Hw]; [ finish | ];
      exists w; unfold upd; case_thread w t;
      [ rewrite Hpc in Hw; simpl in Hw; discriminate | exact Hw ] ].

(* The goal is [Inv] of the state thread [t] leaves behind; [Hpc] says
   where [t] was. *)
Ltac preserve I t Hpc :=
  let Hrange := fresh "Hrange" in
  let Hsw := fresh "Hsw" in
  let Huniq := fresh "Huniq" in
  let Hex1 := fresh "Hex1" in
  let Hnn := fresh "Hnn" in
  pose proof (inv_locked_range _ I) as Hrange;
  pose proof (inv_switch_number _ I) as Hsw;
  pose proof (inv_owner_unique _ I) as Huniq;
  pose proof (inv_locked_owner _ I) as Hex1;
  pose proof (tstate_of_not_NULL t) as Hnn;
  about I t; rewrite Hpc in *; simpl in *; tidy; bools;
  constructor; simpl;
  first [ solve [unary I t Huniq Hpc]
        | solve [binary I t Huniq Hpc]
        | solve [some_owner I t Hex1 Hpc]
        | finish ].

Lemma stmt_preserves : forall s t s',
  Inv s -> stmt s t = Some s' -> Inv s'.
Proof.
  intros s t s' I Hex. unfold stmt, take_gil, drop_gil in Hex.
  destruct (pc (th s t)) eqn:Hpc; try discriminate.
  all: repeat split_if; try discriminate; inversion Hex; subst s'; clear Hex.
  all: try solve [destruct I; constructor; simpl; assumption].
  all: preserve I t Hpc.
Qed.

(** A change that leaves the program counters, the arguments and the
    variables of the lock alone does not matter to the invariant. *)
Lemma Inv_ext : forall s s',
  gil_mutex (sh s') = gil_mutex (sh s) ->
  switch_mutex (sh s') = switch_mutex (sh s) ->
  gil_locked (sh s') = gil_locked (sh s) ->
  gil_last_holder (sh s') = gil_last_holder (sh s) ->
  gil_switch_number (sh s') = gil_switch_number (sh s) ->
  (forall u, pc (th s' u) = pc (th s u)) ->
  (forall u, tstate (th s' u) = tstate (th s u)) ->
  Inv s -> Inv s'.
Proof.
  intros s s' E1 E2 E3 E4 E5 Epc Ets I.
  constructor; intros;
    repeat match goal with H : context [pc (th s' _)] |- _ => rewrite Epc in H end;
    rewrite ?E1, ?E2, ?E3, ?E4, ?E5, ?Epc, ?Ets in *.
  - now apply (inv_gil_mutex_held _ I).
  - now apply (inv_gil_mutex_owner _ I).
  - now apply (inv_switch_mutex_held _ I).
  - now apply (inv_switch_mutex_owner _ I).
  - apply (inv_locked_range _ I).
  - now apply (inv_owner_locked _ I t).
  - now apply (inv_ready_free _ I t).
  - now apply (inv_published _ I).
  - now apply (inv_take_tstate _ I).
  - now apply (inv_drop_tstate _ I).
  - now apply (inv_entry_tstate _ I).
  - now apply (inv_handoff_tstate _ I).
  - now apply (inv_has_published _ I t).
  - apply (inv_switch_number _ I).
  - now apply (inv_owner_unique _ I).
  - destruct (inv_locked_owner _ I H) as [w Hw]. exists w. now rewrite Epc.
Qed.

Lemma upd_same : forall f t x, upd f t x t = x.
Proof. intros; unfold upd; now rewrite Pos.eqb_refl. Qed.

Lemma upd_other : forall f t x u, u <> t -> upd f t x u = f u.
Proof. intros f t x u H; unfold upd. apply Pos.eqb_neq in H. now rewrite H. Qed.

Lemma wake_gil_cond_preserves : forall s w b s',
  Inv s -> wake_gil_cond s w b = Some s' -> Inv s'.
Proof.
  intros s w b s' I H. unfold wake_gil_cond in H.
  destruct (pc (th s w)) eqn:Hpc; try discriminate.
  inversion H; subst s'; clear H. preserve I w Hpc.
Qed.

Lemma wake_switch_cond_preserves : forall s w s',
  Inv s -> wake_switch_cond s w = Some s' -> Inv s'.
Proof.
  intros s w s' I H. unfold wake_switch_cond in H.
  destruct (pc (th s w)) eqn:Hpc; try discriminate.
  inversion H; subst s'; clear H. preserve I w Hpc.
Qed.

Lemma signalled_take_preserves : forall s t,
  Inv s -> pc (th s t) = T309 -> Inv (next s t T310 (sh s) (th s t)).
Proof. intros s t I Hpc. preserve I t Hpc. Qed.

Lemma signalled_drop_preserves : forall s t,
  Inv s -> pc (th s t) = D254 -> Inv (next s t D258 (sh s) (th s t)).
Proof. intros s t I Hpc. preserve I t Hpc. Qed.

Lemma wake_gil_cond_pc : forall s w b s' t,
  wake_gil_cond s w b = Some s' -> pc (th s t) <> T289w -> pc (th s' t) = pc (th s t).
Proof.
  intros s w b s' t H Ht. unfold wake_gil_cond in H.
  destruct (pc (th s w)) eqn:Hpc; try discriminate.
  inversion H; subst s'; clear H. simpl.
  unfold upd. destruct (Pos.eqb_spec t w); [subst; congruence | reflexivity].
Qed.

Lemma wake_switch_cond_pc : forall s w s' t,
  wake_switch_cond s w = Some s' -> pc (th s t) <> D265w -> pc (th s' t) = pc (th s t).
Proof.
  intros s w s' t H Ht. unfold wake_switch_cond in H.
  destruct (pc (th s w)) eqn:Hpc; try discriminate.
  inversion H; subst s'; clear H. simpl.
  unfold upd. destruct (Pos.eqb_spec t w); [subst; congruence | reflexivity].
Qed.

Lemma live_preserves : forall s e s',
  Inv s -> live s e = Some s' -> Inv s'.
Proof.
  intros s e s' I H. destruct e; simpl in H.
  - (* CallTake *)
    destruct (pc (th s t)) eqn:Hpc; try discriminate.
    destruct (N.eqb arg NULL || N.eqb arg (tstate_of t))%bool eqn:Harg; try discriminate.
    inversion H; subst s'; clear H.
    apply orb_true_iff in Harg. rewrite !N.eqb_eq in Harg.
    preserve I t Hpc.
  - (* CallDrop *)
    destruct (pc (th s t)) eqn:Hpc; try discriminate.
    inversion H; subst s'; clear H. preserve I t Hpc.
  - eapply stmt_preserves; eauto.
  - (* Wake *)
    destruct (pc (th s t)) eqn:Hpc; try discriminate.
    + destruct (mem_tid w (switch_cond (sh s))); try discriminate.
      destruct (wake_switch_cond s w) as [s1|] eqn:Hw; try discriminate.
      inversion H; subst s'; clear H.
      apply signalled_take_preserves.
      * eapply wake_switch_cond_preserves; eauto.
      * erewrite wake_switch_cond_pc; eauto. congruence.
    + destruct (mem_tid w (gil_cond (sh s))); try discriminate.
      destruct (wake_gil_cond s w false) as [s1|] eqn:Hw; try discriminate.
      inversion H; subst s'; clear H.
      apply signalled_drop_preserves.
      * eapply wake_gil_cond_preserves; eauto.
      * erewrite wake_gil_cond_pc; eauto. congruence.
  - eapply wake_gil_cond_preserves; eauto.
  - destruct (pc (th s t)); try discriminate.
    + eapply wake_gil_cond_preserves; eauto.
    + eapply wake_switch_cond_preserves; eauto.
  - (* LibErrno *)
    destruct (in_foreign_code (pc (th s t))); try discriminate.
    inversion H; subst s'; clear H.
    apply Inv_ext with (s := s); simpl; auto;
      intros u; unfold upd; destruct (Pos.eqb_spec u t); subst; reflexivity.
  - (* SetInterval *)
    destruct ((0 <=? v) && (v <=? ULONG_MAX))%bool; try discriminate.
    inversion H; subst s'; clear H.
    apply Inv_ext with (s := s); simpl; auto.
  - (* SetAsyncExc *)
    inversion H; subst s'; clear H.
    apply Inv_ext with (s := s); simpl; auto;
      intros u; unfold upd; destruct (Pos.eqb_spec u t); subst; reflexivity.
Qed.

Lemma exec_preserves : forall s e s',
  Inv s -> exec s e = Some s' -> Inv s'.
Proof.
  intros s e s' I H. unfold exec in H.
  destruct (fatal s); [discriminate|]. eapply live_preserves; eauto.
Qed.

Lemma boot_Inv : forall s, initial s -> Inv s.
Proof.
  intros s (g & ths & Hsw & ->). unfold boot.
  constructor; simpl; intros; try discriminate; auto.
Qed.

Lemma steps_invariant : forall (P : state -> event -> Prop) (Q : state -> Prop),
  (forall s e s1, Q s -> P s e -> exec s e = Some s1 -> Q s1) ->
  forall s s', steps P s s' -> Q s -> Q s'.
Proof.
  intros P Q HQ s s' H. induction H; intros; eauto.
Qed.

Lemma steps_Inv : forall P s s', steps P s s' -> Inv s -> Inv s'.
Proof.
  intros P s s' H. apply steps_invariant with (P := P); [|assumption].
  intros; eapply exec_preserves; eauto.
Qed.

Lemma reachable_Inv : forall s, reachable s -> Inv s.
Proof.
  intros s (s0 & H0 & H). eapply steps_Inv; eauto using boot_Inv.
Qed.

(** ** Reachable states *)

Lemma run_steps : forall evs s s', run s evs = Some s' -> steps any_step s s'.
Proof.
  induction evs as [|e evs IH]; simpl; intros s s' H.
  - inversion H; constructor.
  - destruct (exec s e) as [s1|] eqn:He; [|discriminate].
    eapply steps_cons; [exact I | exact He | auto].
Qed.

Lemma steps_trans : forall P s1 s2 s3, steps P s1 s2 -> steps P s2 s3 -> steps P s1 s3.
Proof. induction 1; intros; eauto using steps_cons. Qed.

Lemma steps_weaken : forall (P Q : state -> event -> Prop) s s',
  (forall x e, P x e -> Q x e) -> steps P s s' -> steps Q s s'.
Proof. induction 2; econstructor; eauto. Qed.

Lemma initial_boot0 : initial boot0.
Proof.
  exists static_gil, (fun _ => thread0). split; [|reflexivity].
  unfold ULONG_MAX; simpl; lia.
Qed.

Lemma run_reachable : forall s0 evs s,
  initial s0 -> run s0 evs = Some s -> reachable s.
Proof. intros s0 evs s H0 H. exists s0; split; [assumption|]. now apply run_steps with evs. Qed.

Lemma reachable_step : forall s e s',
  reachable s -> exec s e = Some s' -> reachable s'.
Proof.
  intros s e s' (s0 & H0 & H) He. exists s0; split; [assumption|].
  eapply steps_trans; [exact H|]. eapply steps_cons; [exact I | exact He | constructor].
Qed.

(** ** Mutual exclusion *)

Lemma between_published : forall l, between_take_and_drop l = true -> published l = true.
Proof. destruct l; simpl; congruence. Qed.

(** C1 (as amended).  Mutual exclusion: in every reachable state at most
    one thread is between a completed [take_gil] and its matching
    [drop_gil]; [gil_locked] is 1 exactly when there is a logical owner (a
    thread that has executed line 302 and not yet line 253), and that
    owner is unique; the owner equals [gil_last_holder] as soon as it is
    past lines 304-305, in particular for all the time between its
    completed take and its drop.  (Between lines 302 and 305 of a take by
    a new holder [gil_locked] is already 1 while [gil_last_holder] is
    still the previous holder.) *)
Theorem mutual_exclusion : forall s, reachable s ->
  (forall t u,
      between_take_and_drop (pc (th s t)) = true ->
      between_take_and_drop (pc (th s u)) = true -> t = u)
  /\ (gil_locked (sh s) = 1 <->
      exists t, owner (pc (th s t)) = true /\
                forall u, owner (pc (th s u)) = true -> u = t)
  /\ (forall t, owner (pc (th s t)) = true ->
                pc (th s t) <> T304 -> pc (th s t) <> T305 ->
                gil_last_holder (sh s) = tstate_of t)
  /\ (forall t, between_take_and_drop (pc (th s t)) = true ->
                gil_locked (sh s) = 1 /\ gil_last_holder (sh s) = tstate_of t).
Proof.
  intros s Hs. apply reachable_Inv in Hs.
  repeat split.
  - intros t u Ht Hu. apply (inv_owner_unique _ Hs);
      apply published_owner, between_published; assumption.
  - intros H. destruct (inv_locked_owner _ Hs H) as [t Ht].
    exists t; split; [assumption|]. intros u Hu. now apply (inv_owner_unique _ Hs).
  - intros (t & Ht & _). now apply (inv_owner_locked _ Hs t).
  - intros t Ho H4 H5. apply (inv_published _ Hs).
    destruct (pc (th s t)); simpl in *; congruence.
  - apply (inv_owner_locked _ Hs t). now apply published_owner, between_published.
  - apply (inv_published _ Hs). now apply between_published.
Qed.

Lemma state_after_run : forall evs,
  run boot0 evs <> None -> run boot0 evs = Some (state_after evs).
Proof. unfold state_after; intros evs H. destruct (run boot0 evs); congruence. Qed.

Lemma state_after_reachable : forall evs,
  run boot0 evs <> None -> reachable (state_after evs).
Proof.
  intros evs H. apply run_reachable with (s0 := boot0) (evs := evs).
  - apply initial_boot0.
  - now apply state_after_run.
Qed.

Lemma mutual_exclusion_witness :
  between_take_and_drop (pc (th (state_after (take_free tA)) tA)) = true /\
  gil_locked (sh (state_after (take_free tA))) = 1 /\
  gil_last_holder (sh (state_after (take_free tA))) = tstate_of tA.
Proof.
  assert (B : between_take_and_drop (pc (th (state_after (take_free tA)) tA)) = true)
    by (vm_compute; reflexivity).
  split; [exact B|].
  apply (mutual_exclusion (state_after (take_free tA))).
  - apply state_after_reachable. vm_compute. discriminate.
  - exact B.
Defined.

(** The first taker has executed line 302 and not yet line 305: the GIL
    is taken and its last holder is nobody. *)
Lemma held_taken_before_last_holder :
  reachable (state_after first_take_window) /\
  pc (th (state_after first_take_window) tA) = T304 /\
  gil_locked (sh (state_after first_take_window)) = 1 /\
  gil_last_holder (sh (state_after first_take_window)) = NULL /\
  (forall t, gil_last_holder (sh (state_after first_take_window)) <> tstate_of t).
Proof.
  split; [apply state_after_reachable; vm_compute; discriminate|].
  assert (E : gil_last_holder (sh (state_after first_take_window)) = NULL)
    by (vm_compute; reflexivity).
  split; [vm_compute; reflexivity|]. split; [vm_compute; reflexivity|].
  split; [exact E|].
  intros t. rewrite E. apply not_eq_sym, tstate_of_not_NULL.
Qed.

(** ** The scenarios of the specification *)

(** Scenario 1, uncontended. *)
Example uncontended :
  let s := state_after (take_free tA ++ drop_free tA) in
  gil_last_holder (sh s) = tstate_of tA /\ gil_switch_number (sh s) = 1 /\
  gil_locked (sh s) = 0 /\ gil_drop_request (sh s) = false /\
  pc (th s tA) = Idle.
Proof. vm_compute. repeat split. Qed.

(** Scenario 2, simple handoff: [A] takes, [B] waits and times out, [A]
    drops on request and is handed over to [B]. *)
Example simple_handoff :
  let asked := state_after contended in
  let s := state_after
             (contended ++ CallDrop tA (tstate_of tA) :: runs_of 4 tA ++
              Wake tA tB :: runs_of 5 tA ++ runs_of 8 tB ++
              Wake tB tA :: runs_of 5 tB ++ runs_of 2 tA) in
  gil_drop_request (sh asked) = true /\
  pc (th s tA) = Idle /\ pc (th s tB) = Holding /\
  gil_last_holder (sh s) = tstate_of tB /\ gil_switch_number (sh s) = 2 /\
  gil_drop_request (sh s) = false.
Proof. vm_compute. repeat split. Qed.

(** ** What an event touches *)

Lemma run_checked_steps : forall (P : state -> event -> Prop) p,
  (forall s e, p s e = true -> P s e) ->
  forall evs s s', run_checked p s evs = Some s' -> steps P s s'.
Proof.
  intros P p Hp. induction evs as [|e evs IH]; simpl; intros s s' H.
  - inversion H; constructor.
  - destruct (p s e) eqn:Hpe; [|discriminate].
    destruct (exec s e) as [s1|] eqn:He; [|discriminate].
    eapply steps_cons; eauto.
Qed.

Lemma wake_gil_cond_untouched : forall s w b s' t,
  wake_gil_cond s w b = Some s' -> w <> t -> th s' t = th s t.
Proof.
  unfold wake_gil_cond; intros s w b s' t H Hn.
  destruct (pc (th s w)); try discriminate. inversion H; subst; simpl.
  apply upd_other; congruence.
Qed.

Lemma wake_switch_cond_untouched : forall s w s' t,
  wake_switch_cond s w = Some s' -> w <> t -> th s' t = th s t.
Proof.
  unfold wake_switch_cond; intros s w s' t H Hn.
  destruct (pc (th s w)); try discriminate. inversion H; subst; simpl.
  apply upd_other; congruence.
Qed.

Lemma stmt_untouched : forall s u s' t,
  stmt s u = Some s' -> u <> t -> th s' t = th s t.
Proof.
  unfold stmt, take_gil, drop_gil; intros s u s' t H Hn.
  destruct (pc (th s u)); try discriminate;
    repeat split_if; try discriminate; inversion H; subst; simpl;
    try reflexivity; apply upd_other; congruence.
Qed.

(** An event leaves alone the threads it does not touch. *)
Lemma exec_untouched : forall s e s' t,
  exec s e = Some s' -> touches e t = false -> th s' t = th s t.
Proof.
  unfold exec; intros s e s' t H Ht. destruct (fatal s); [discriminate|].
  destruct e; simpl in *;
    try (apply orb_false_iff in Ht; destruct Ht as [Ht Ht']; apply Pos.eqb_neq in Ht');
    try apply Pos.eqb_neq in Ht.
  - destruct (pc (th s t0)); try discriminate.
    destruct (_ || _)%bool; try discriminate. inversion H; subst; simpl.
    apply upd_other; congruence.
  - destruct (pc (th s t0)); try discriminate. inversion H; subst; simpl.
    apply upd_other; congruence.
  - eapply stmt_untouched; eauto.
  - destruct (pc (th s t0)); try discriminate.
    + destruct (mem_tid _ _); try discriminate.
      destruct (wake_switch_cond s w) as [s1|] eqn:Hw; try discriminate.
      inversion H; subst; simpl. rewrite upd_other by congruence.
      eapply wake_switch_cond_untouched; eauto.
    + destruct (mem_tid _ _); try discriminate.
      destruct (wake_gil_cond s w false) as [s1|] eqn:Hw; try discriminate.
      inversion H; subst; simpl. rewrite upd_other by congruence.
      eapply wake_gil_cond_untouched; eauto.
  - eapply wake_gil_cond_untouched; eauto.
  - destruct (pc (th s t0)); try discriminate.
    + eapply wake_gil_cond_untouched; eauto.
    + eapply wake_switch_cond_untouched; eauto.
  - destruct (in_foreign_code _); try discriminate. inversion H; subst; simpl.
    apply upd_other; congruence.
  - destruct (_ && _)%bool; try discriminate. inversion H; subst; reflexivity.
  - inversion H; subst; simpl. apply upd_other; congruence.
Qed.

(** Who writes the variables the GIL protects. *)
Lemma stmt_writes : forall s u s',
  stmt s u = Some s' ->
  (pc (th s u) <> T305 -> gil_last_holder (sh s') = gil_last_holder (sh s)) /\
  (pc (th s u) <> T306 -> gil_switch_number (sh s') = gil_switch_number (sh s)) /\
  (pc (th s u) <> T292 -> pc (th s u) <> T312 ->
   gil_drop_request (sh s') = gil_drop_request (sh s)) /\
  (pc (th s u) <> T302 -> pc (th s u) <> D253 ->
   gil_locked (sh s') = gil_locked (sh s)).
Proof.
  unfold stmt, take_gil, drop_gil; intros s u s' H.
  destruct (pc (th s u)); try discriminate;
    repeat split_if; try discriminate; inversion H; subst; simpl;
    repeat split; intros; congruence.
Qed.

Lemma wake_gil_cond_writes : forall s w b s',
  wake_gil_cond s w b = Some s' ->
  gil_last_holder (sh s') = gil_last_holder (sh s) /\
  gil_switch_number (sh s') = gil_switch_number (sh s) /\
  gil_drop_request (sh s') = gil_drop_request (sh s) /\
  gil_locked (sh s') = gil_locked (sh s).
Proof.
  unfold wake_gil_cond; intros s w b s' H.
  destruct (pc (th s w)); try discriminate. inversion H; subst; simpl. auto.
Qed.

Lemma wake_switch_cond_writes : forall s w s',
  wake_switch_cond s w = Some s' ->
  gil_last_holder (sh s') = gil_last_holder (sh s) /\
  gil_switch_number (sh s') = gil_switch_number (sh s) /\
  gil_drop_request (sh s') = gil_drop_request (sh s) /\
  gil_locked (sh s') = gil_locked (sh s).
Proof.
  unfold wake_switch_cond; intros s w s' H.
  destruct (pc (th s w)); try discriminate. inversion H; subst; simpl. auto.
Qed.

Lemma exec_writes : forall s e s',
  exec s e = Some s' ->
  (~ writer s e T305 -> gil_last_holder (sh s') = gil_last_holder (sh s)) /\
  (~ writer s e T306 -> gil_switch_number (sh s') = gil_switch_number (sh s)) /\
  (~ writer s e T292 -> ~ writer s e T312 ->
   gil_drop_request (sh s') = gil_drop_request (sh s)) /\
  (~ writer s e T302 -> ~ writer s e D253 ->
   gil_locked (sh s') = gil_locked (sh s)).
Proof.
  unfold exec; intros s e s' H. destruct (fatal s); [discriminate|].
  destruct e; simpl in H.
  - destruct (pc (th s t)); try discriminate.
    destruct (_ || _)%bool; try discriminate. inversion H; subst; simpl. tauto.
  - destruct (pc (th s t)); try discriminate. inversion H; subst; simpl. tauto.
  - destruct (stmt_writes _ _ _ H) as (W1 & W2 & W3 & W4).
    unfold writer. repeat split; intros.
    + apply W1; intros E; apply H0; eauto.
    + apply W2; intros E; apply H0; eauto.
    + apply W3; intros E; [apply H0 | apply H1]; eauto.
    + apply W4; intros E; [apply H0 | apply H1]; eauto.
  - destruct (pc (th s t)); try discriminate.
    + destruct (mem_tid _ _); try discriminate.
      destruct (wake_switch_cond s w) as [s1|] eqn:Hw; try discriminate.
      inversion H; subst; simpl.
      destruct (wake_switch_cond_writes _ _ _ Hw) as (? & ? & ? & ?). tauto.
    + destruct (mem_tid _ _); try discriminate.
      destruct (wake_gil_cond s w false) as [s1|] eqn:Hw; try discriminate.
      inversion H; subst; simpl.
      destruct (wake_gil_cond_writes _ _ _ _ Hw) as (? & ? & ? & ?). tauto.
  - destruct (wake_gil_cond_writes _ _ _ _ H) as (? & ? & ? & ?). tauto.
  - destruct (pc (th s t)); try discriminate.
    + destruct (wake_gil_cond_writes _ _ _ _ H) as (? & ? & ? & ?). tauto.
    + destruct (wake_switch_cond_writes _ _ _ H) as (? & ? & ? & ?). tauto.
  - destruct (in_foreign_code _); try discriminate. inversion H; subst; simpl. tauto.
  - destruct (_ && _)%bool; try discriminate. inversion H; subst; simpl. tauto.
  - inversion H; subst; simpl. tauto.
Qed.

(** ** One call of [take_gil] *)

(* [t] is touched by [e]: name the cases. *)
Ltac touched e t Ht :=
  destruct e; simpl in Ht;
  try (apply orb_true_iff in Ht; destruct Ht as [Ht|Ht]);
  try discriminate; apply Pos.eqb_eq in Ht;
  match type of Ht with ?a = _ => subst a end.

(* [H : exec s e = Some s1] where the thread at [Hpc] is the one [e] moves. *)
Ltac compute_step H Hpc :=
  unfold exec in H;
  match type of H with
  | match fatal ?s with _ => _ end = _ => destruct (fatal s); [discriminate|]
  end;
  simpl in H; unfold stmt, take_gil, drop_gil, wake_gil_cond, wake_switch_cond in H;
  try rewrite Hpc in H; try discriminate;
  repeat
    (match type of H with
     | context [match pc (th ?s ?u) with _ => _ end] =>
         destruct (pc (th s u)) eqn:?; try discriminate
     | context [if ?c then _ else _] => destruct c eqn:?; try discriminate
     | context [match gil_mutex ?g with _ => _ end] =>
         destruct (gil_mutex g) eqn:?; try discriminate
     | context [match switch_mutex ?g with _ => _ end] =>
         destruct (switch_mutex g) eqn:?; try discriminate
     | context [match drop_gil_locked_check ?g with _ => _ end] =>
         destruct (drop_gil_locked_check g) eqn:?; try discriminate
     | context [match drop_gil_tstate_check ?g ?a with _ => _ end] =>
         destruct (drop_gil_tstate_check g a) eqn:?; try discriminate
     end; simpl in H; try rewrite Hpc in H);
  try discriminate;
  match type of H with
  | _ = Some ?x => injection H as H; subst x
  end;
  simpl;
  repeat first [ rewrite upd_same
               | rewrite upd_other by (intro; subst; congruence) ];
  simpl.

Section TakeErrno.

Variable t : tid.
Variable e0 : Z.

Lemma errno_kept_step : forall s e s1,
  errno_kept t e0 s -> inside_call t s e -> exec s e = Some s1 -> errno_kept t e0 s1.
Proof.
  unfold errno_kept, inside_call; intros s e s1 HK Hin H.
  destruct (touches e t) eqn:Ht.
  - destruct (pc (th s t)) eqn:Hpc; try contradiction; try discriminate;
      touched e t Ht; compute_step H Hpc; try rewrite Hpc; try assumption;
      try congruence.
  - rewrite (exec_untouched _ _ _ _ H Ht). assumption.
Qed.

End TakeErrno.

(** C9.  [take_gil] is transparent to [errno]: whatever the call executes,
    however long it sleeps and whatever the library calls it makes leave
    in [errno], the [errno] of the caller when [take_gil] returns is the
    one it had when [take_gil] was entered. *)
Theorem take_gil_restores_errno : forall t s s',
  pc (th s t) = T274 ->
  steps (inside_call t) s s' ->
  pc (th s' t) = Holding ->
  errno (th s' t) = errno (th s t).
Proof.
  intros t s s' Hentry Hsteps Hret.
  assert (K : errno_kept t (errno (th s t)) s') .
  { apply steps_invariant with (P := inside_call t) (s := s); auto.
    - intros; eapply errno_kept_step; eauto.
    - unfold errno_kept. now rewrite Hentry. }
  unfold errno_kept in K. now rewrite Hret in K.
Qed.

Lemma touches_Run : forall u t, touches (Run u) t = false -> u <> t.
Proof. simpl; intros u t H. now apply Pos.eqb_neq. Qed.


Section TakeSwitch.

Variable t : tid.
Variable lh0 : ptr.
Variable sw0 : Z.



End TakeSwitch.

Lemma ulong_succ : forall a, ulong (ulong a + 1) = ulong (a + 1).
Proof.
  intros a. unfold ulong. rewrite Zplus_mod_idemp_l. reflexivity.
Qed.

Lemma ulong_small : forall a, 0 <= a <= ULONG_MAX -> ulong a = a.
Proof. intros a H. unfold ulong. apply Z.mod_small. lia. Qed.


(** ** The forced handoff *)

Lemma stmt_keeps_request : forall s u s',
  stmt s u = Some s' -> pc (th s u) <> T312 ->
  gil_drop_request (sh s) = true -> gil_drop_request (sh s') = true.
Proof.
  unfold stmt, take_gil, drop_gil; intros s u s' H Hn Hr.
  destruct (pc (th s u)); try discriminate;
    repeat split_if; try discriminate; inversion H; subst; simpl;
    congruence.
Qed.

(** A request to drop the GIL stands until a taker clears it (line 313). *)
Lemma exec_keeps_request : forall s e s',
  exec s e = Some s' -> ~ writer s e T312 ->
  gil_drop_request (sh s) = true -> gil_drop_request (sh s') = true.
Proof.
  intros s e s' H Hn Hr.
  destruct e;
    try (destruct (exec_writes _ _ _ H) as (_ & _ & W & _);
         rewrite W; [assumption | intros (u & Hu & _); discriminate
                                | intros (u & Hu & _); discriminate]).
  unfold exec in H. destruct (fatal s); [discriminate|]. simpl in H.
  eapply stmt_keeps_request; eauto. intros E; apply Hn; exists t; auto.
Qed.

Section ForcedHandoff.

Variable t : tid.

Lemma awaiting_successor_step : forall s e s1,
  Inv s -> awaiting_successor t s -> no_successor_yet t s e ->
  exec s e = Some s1 -> awaiting_successor t s1.
Proof.
  intros s e s1 I [Hts HK] [Hlh Hsp] H.
  assert (Hw : ~ writer s e T312).
  { intros (u & -> & Hu).
    assert (Hp : published (pc (th s u)) = true) by (rewrite Hu; reflexivity).
    pose proof (inv_published _ I u Hp) as E. rewrite Hlh in E.
    apply tstate_of_inj in E. subst u. rewrite Hu in HK. exact HK. }
  destruct (touches e t) eqn:Ht.
  - unfold awaiting_successor in *.
    destruct (pc (th s t)) eqn:Hpc; try contradiction;
      touched e t Ht; try congruence;
      compute_step H Hpc; try rewrite Hpc; bools;
      try (split; [assumption|]); try assumption; try exact Logic.I; try congruence.
    (* a signal for the sleeper: its sender would be the last holder *)

    all: match goal with
         | Hu : pc (th ?x ?u) = T309 |- _ =>
             assert (Hp : published (pc (th x u)) = true) by (rewrite Hu; reflexivity);
             pose proof (inv_published _ I u Hp) as E; rewrite Hlh in E;
             apply tstate_of_inj in E; congruence
         end.
  - unfold awaiting_successor in *.
    rewrite (exec_untouched _ _ _ _ H Ht). split; [assumption|].
    destruct (pc (th s t)); try contradiction; try exact Logic.I;
      eapply exec_keeps_request; eauto.
Qed.

End ForcedHandoff.

(** X8.  Without spurious wakeups the handoff holds: a thread that calls
    [drop_gil] on its own thread state while the drop request is set is
    still inside [drop_gil], at or before the wait of line 265, for as
    long as no other thread has become [gil_last_holder]. *)
Theorem forced_handoff_without_spurious_wakeup : forall t s s',
  reachable s ->
  pc (th s t) = D247 ->
  tstate (th s t) = tstate_of t ->
  gil_drop_request (sh s) = true ->
  steps (no_successor_yet t) s s' ->
  in_drop (pc (th s' t)) = true /\
  pc (th s' t) <> D265r /\ pc (th s' t) <> D266.
Proof.
  intros t s s' Hs Hcall Hts Hreq Hsteps.
  apply reachable_Inv in Hs.
  assert (K : Inv s' /\ awaiting_successor t s').
  { apply steps_invariant with (P := no_successor_yet t) (s := s)
      (Q := fun x => Inv x /\ awaiting_successor t x); auto.
    - intros x e x1 [I K] Hin He. split.
      + eapply exec_preserves; eauto.
      + eapply awaiting_successor_step; eauto.
    - split; [assumption|]. unfold awaiting_successor. rewrite Hcall. auto. }
  destruct K as [_ [_ K]].
  destruct (pc (th s' t)); try contradiction; repeat split; discriminate.
Qed.

(** ** Counting the switches *)

Lemma last_holder_of_snoc : forall l t, last_holder_of (l ++ [t]) = tstate_of t.
Proof. intros; unfold last_holder_of. rewrite map_app. simpl. apply last_last. Qed.

Lemma last_holder_of_cons2 : forall a b l,
  last_holder_of (a :: b :: l) = last_holder_of (b :: l).
Proof. reflexivity. Qed.

Lemma adjacent_equal_snoc : forall l t,
  adjacent_equal (l ++ [t]) =
  (adjacent_equal l + if N.eqb (last_holder_of l) (tstate_of t) then 1 else 0)%nat.
Proof.
  induction l as [|a l IH]; intros t; [reflexivity|].
  destruct l as [|b l].
  - simpl. unfold last_holder_of; simpl. lia.
  - rewrite last_holder_of_cons2.
    change ((a :: b :: l) ++ [t]) with (a :: ((b :: l) ++ [t])).
    change (adjacent_equal (a :: (b :: l) ++ [t]))
      with ((if Pos.eqb a b then 1 else 0) + adjacent_equal ((b :: l) ++ [t]))%nat.
    rewrite IH.
    change (adjacent_equal (a :: b :: l))
      with ((if Pos.eqb a b then 1 else 0) + adjacent_equal (b :: l))%nat.
    lia.
Qed.

Lemma switches_snoc : forall l t,
  switches (l ++ [t]) =
  switches l + if N.eqb (last_holder_of l) (tstate_of t) then 0 else 1.
Proof.
  intros l t. unfold switches. rewrite List.length_app, adjacent_equal_snoc; simpl.
  destruct (N.eqb (last_holder_of l) (tstate_of t)); lia.
Qed.

Section History.

Variable sw0 : Z.

Lemma accounted_ext : forall l s s',
  switch_mutex (sh s') = switch_mutex (sh s) ->
  gil_last_holder (sh s') = gil_last_holder (sh s) ->
  gil_switch_number (sh s') = gil_switch_number (sh s) ->
  (forall t, switch_mutex (sh s) = Some t -> pc (th s' t) = pc (th s t)) ->
  accounted sw0 l s -> accounted sw0 l s'.
Proof.
  unfold accounted, settled; intros l s s' E1 E2 E3 E4 H.
  rewrite E1, E2, E3. destruct (switch_mutex (sh s)) as [t|]; [|assumption].
  rewrite (E4 t eq_refl). assumption.
Qed.

Lemma accounted_stmt : forall l s u s',
  Inv s -> accounted sw0 l s -> stmt s u = Some s' ->
  accounted sw0 (l ++ acquires s (Run u)) s'.
Proof.
  intros l s u s' I HK H. unfold stmt, take_gil, drop_gil in H.
  pose proof (inv_switch_mutex_held _ I u) as Hheld.
  pose proof (inv_switch_mutex_owner _ I u) as Hown.
  pose proof (inv_take_tstate _ I u) as Hts.
  unfold acquires.
  destruct (pc (th s u)) eqn:Hpc; try discriminate; simpl in Hheld, Hown, Hts; tidy.
  all: repeat split_if; try discriminate; inversion H; subst s'; clear H.
  all: rewrite ?app_nil_r.
  all: try (exact HK).
  all: unfold accounted, settled in *; simpl.
  all: first
    [ (* the thread holds switch_mutex *)
      rewrite Hheld in HK; rewrite ?Hheld; rewrite ?upd_same;
      rewrite Hpc in HK; simpl
    | (* the thread takes switch_mutex *)
      match goal with
      | H : switch_mutex (sh _) = None |- _ => rewrite H in HK
      end;
      rewrite ?upd_same; simpl
    | (* the thread has nothing to do with switch_mutex *)
      destruct (switch_mutex (sh s)) as [v|] eqn:Hsm;
      [ rewrite upd_other by (intros ->; specialize (Hown eq_refl); discriminate)
      | ] ].
  all: try exact HK.
  all: bools.
  - (* line 302 *) exists l. auto.
  - (* line 304, a new holder *)
    destruct HK as (l' & -> & [E1 E2]). exists l'. repeat split; auto. congruence.
  - (* line 304, the last holder again *)
    destruct HK as (l' & -> & [E1 E2]).
    rewrite last_holder_of_snoc, switches_snoc.
    assert (E : N.eqb (last_holder_of l') (tstate_of u) = true)
      by (apply N.eqb_eq; congruence).
    rewrite E, Z.add_0_r. split; congruence.
  - (* line 305 *)
    destruct HK as (l' & -> & [E1 E2] & Hn). exists l'. auto.
  - (* line 306 *)
    destruct HK as (l' & -> & E1 & E2 & Hn).
    rewrite last_holder_of_snoc, switches_snoc.
    apply N.eqb_neq in Hn. rewrite Hn, E2, ulong_succ, Z.add_assoc. auto.
Qed.

Lemma wake_switch_cond_accounted : forall l s w s',
  Inv s -> accounted sw0 l s -> wake_switch_cond s w = Some s' -> accounted sw0 l s'.
Proof.
  intros l s w s' I HK H. unfold wake_switch_cond in H.
  destruct (pc (th s w)) eqn:Hpc; try discriminate. inversion H; subst s'; clear H.
  apply accounted_ext with (s := s); simpl; auto.
  intros t Ht. apply (inv_switch_mutex_owner _ I) in Ht.
  rewrite upd_other; [reflexivity|]. intros ->. rewrite Hpc in Ht. discriminate.
Qed.

Lemma wake_gil_cond_accounted : forall l s w b s',
  Inv s -> accounted sw0 l s -> wake_gil_cond s w b = Some s' -> accounted sw0 l s'.
Proof.
  intros l s w b s' I HK H. unfold wake_gil_cond in H.
  destruct (pc (th s w)) eqn:Hpc; try discriminate. inversion H; subst s'; clear H.
  apply accounted_ext with (s := s); simpl; auto.
  intros t Ht. apply (inv_switch_mutex_owner _ I) in Ht.
  rewrite upd_other; [reflexivity|]. intros ->. rewrite Hpc in Ht. discriminate.
Qed.

Lemma accounted_exec : forall l s e s',
  Inv s -> accounted sw0 l s -> exec s e = Some s' ->
  accounted sw0 (l ++ acquires s e) s'.
Proof.
  intros l s e s' I HK H. unfold exec in H.
  destruct (fatal s); [discriminate|].
  destruct e; simpl in H; try (simpl acquires; rewrite app_nil_r).
  - destruct (pc (th s t)) eqn:Hpc; try discriminate.
    destruct (_ || _)%bool; try discriminate. inversion H; subst s'; clear H.
    apply accounted_ext with (s := s); simpl; auto.
    intros v Hv. apply (inv_switch_mutex_owner _ I) in Hv.
    rewrite upd_other; [reflexivity|]. intros ->. rewrite Hpc in Hv. discriminate.
  - destruct (pc (th s t)) eqn:Hpc; try discriminate.
    inversion H; subst s'; clear H.
    apply accounted_ext with (s := s); simpl; auto.
    intros v Hv. apply (inv_switch_mutex_owner _ I) in Hv.
    rewrite upd_other; [reflexivity|]. intros ->. rewrite Hpc in Hv. discriminate.
  - now apply accounted_stmt.
  - destruct (pc (th s t)) eqn:Hpc; try discriminate.
    + destruct (mem_tid _ _); try discriminate.
      destruct (wake_switch_cond s w) as [s1|] eqn:Hw; try discriminate.
      inversion H; subst s'; clear H.
      pose proof (wake_switch_cond_accounted _ _ _ _ I HK Hw) as HK1.
      pose proof (wake_switch_cond_preserves _ _ _ I Hw) as I1.
      assert (Hpc1 : pc (th s1 t) = T309)
        by (erewrite wake_switch_cond_pc; eauto; congruence).
      pose proof (inv_switch_mutex_held _ I1 t) as Hheld.
      rewrite Hpc1 in Hheld. specialize (Hheld eq_refl).
      unfold accounted, settled in *; simpl.
      rewrite Hheld in *. rewrite upd_same. rewrite Hpc1 in HK1. exact HK1.
    + destruct (mem_tid _ _); try discriminate.
      destruct (wake_gil_cond s w false) as [s1|] eqn:Hw; try discriminate.
      inversion H; subst s'; clear H.
      pose proof (wake_gil_cond_accounted _ _ _ _ _ I HK Hw) as HK1.
      pose proof (wake_gil_cond_preserves _ _ _ _ I Hw) as I1.
      assert (Hpc1 : pc (th s1 t) = D254)
        by (erewrite wake_gil_cond_pc; eauto; congruence).
      apply accounted_ext with (s := s1); simpl; auto.
      intros v Hv. apply (inv_switch_mutex_owner _ I1) in Hv.
      rewrite upd_other; [reflexivity|]. intros ->. rewrite Hpc1 in Hv. discriminate.
  - eapply wake_gil_cond_accounted; eauto.
  - destruct (pc (th s t)); try discriminate.
    + eapply wake_gil_cond_accounted; eauto.
    + eapply wake_switch_cond_accounted; eauto.
  - destruct (in_foreign_code _); try discriminate. inversion H; subst s'; clear H.
    apply accounted_ext with (s := s); simpl; auto.
    intros x _. unfold upd. destruct (Pos.eqb_spec x t); subst; reflexivity.
  - destruct (_ && _)%bool; try discriminate. inversion H; subst s'; clear H.
    apply accounted_ext with (s := s); simpl; auto.
  - inversion H; subst s'; clear H.
    apply accounted_ext with (s := s); simpl; auto.
    intros v _. unfold upd. destruct (Pos.eqb_spec v t); subst; reflexivity.
Qed.

Lemma accounted_run : forall evs l s s',
  Inv s -> accounted sw0 l s -> run s evs = Some s' ->
  accounted sw0 (l ++ takes s evs) s'.
Proof.
  induction evs as [|e evs IH]; simpl; intros l s s' I HK H.
  - inversion H; subst. now rewrite app_nil_r.
  - destruct (exec s e) as [s1|] eqn:He; [|discriminate].
    rewrite app_assoc. apply IH; auto.
    + eapply exec_preserves; eauto.
    + now apply accounted_exec.
Qed.

End History.

(** C4 (as amended).  Switch counting: after any execution from a freshly
    initialised lock in which N takes succeeded, with K adjacent equal
    identities among them, and none of which is still inside lines
    304-307, [gil_switch_number] has increased by exactly N - K (modulo
    [2^64]) over its initial value: the very first take counts as a switch
    too, away from no holder.  [gil_last_holder] is the last of the
    takers. *)
Theorem switch_count_formula : forall g ths evs s,
  0 <= gil_switch_number g <= ULONG_MAX ->
  run (boot g ths) evs = Some s ->
  counting_done s ->
  let ids := takes (boot g ths) evs in
  gil_switch_number (sh s) =
    ulong (gil_switch_number g
           + (Z.of_nat (List.length ids) - Z.of_nat (adjacent_equal ids)))
  /\ gil_last_holder (sh s) = last_holder_of ids.
Proof.
  intros g ths evs s Hsw Hrun Hquiet ids.
  assert (I0 : Inv (boot g ths)) by (apply boot_Inv; exists g, ths; auto).
  assert (K0 : accounted (gil_switch_number g) [] (boot g ths)).
  { unfold accounted, settled; simpl. split; [reflexivity|].
    unfold switches; simpl. rewrite Z.add_0_r. symmetry. now apply ulong_small. }
  pose proof (accounted_run (gil_switch_number g) evs [] _ _ I0 K0 Hrun) as K.
  simpl in K. fold ids in K.
  unfold accounted, settled in K.
  unfold counting_done in Hquiet.
  destruct (switch_mutex (sh s)) as [t|].
  - destruct (pc (th s t)); simpl in Hquiet; try discriminate;
      destruct K as [E1 E2]; split; assumption.
  - destruct K as [E1 E2]; split; assumption.
Qed.

(** ** Initialisation *)

Lemma run_cons : forall s e evs,
  run s (e :: evs) = match exec s e with Some s1 => run s1 evs | None => None end.
Proof. reflexivity. Qed.

Lemma exec_live : forall s e, fatal s = None -> exec s e = live s e.
Proof. unfold exec; intros s e ->; reflexivity. Qed.

Arguments run : simpl never.
Arguments exec : simpl never.

Ltac setters :=
  cbv beta iota delta
    [set_pc set_tstate set_err set_timed_out set_saved_switchnum set_wait_us
     set_errno set_async_exc
     set_gil_interval set_gil_locked set_gil_switch_number set_gil_last_holder
     set_gil_cond set_gil_mutex set_switch_cond set_switch_mutex
     set_gil_drop_request set_pending_async_exc
     SET_GIL_DROP_REQUEST RESET_GIL_DROP_REQUEST _PyEval_SignalAsyncExc
     pc tstate err timed_out saved_switchnum wait_us errno async_exc
     gil_interval gil_locked gil_switch_number gil_last_holder gil_cond
     gil_mutex switch_cond switch_mutex gil_drop_request pending_async_exc
     sh th fatal next].

(* One event of a run whose thread is a variable: find the program
   counter first, then the statement. *)
Ltac lookups :=
  repeat first [ rewrite upd_same | rewrite Pos.eqb_refl | rewrite N.eqb_refl ];
  repeat match goal with
         | H : ?f ?t = mk_thread _ _ _ _ _ _ _ _ |- context [?f ?t] => rewrite H
         end.

Ltac run_step :=
  rewrite run_cons; rewrite exec_live by reflexivity;
  unfold live, stmt; setters; lookups; setters;
  unfold take_gil, drop_gil, drop_gil_locked_check, drop_gil_tstate_check;
  setters; lookups; setters; cbn;
  repeat first [ rewrite Pos.eqb_refl | rewrite N.eqb_refl ]; cbn.

(** C5 (as amended).  [create_gil], and [recreate_gil] which is the same
    function, set [gil_locked] to 0 and [gil_last_holder] to [NULL]; they
    leave [gil_switch_number] (and the drop request) as they were.  After
    [recreate_gil], [take_gil (A)]; [drop_gil (A)] runs to its end and
    leaves the GIL free, [A] as last holder, the drop request cleared and
    a switch number one above the one before the [recreate_gil]. *)
Theorem recreate_gil_keeps_switch_number : forall g ths t,
  gil_locked (create_gil g) = 0 /\
  gil_last_holder (create_gil g) = NULL /\
  gil_switch_number (create_gil g) = gil_switch_number g /\
  gil_drop_request (create_gil g) = gil_drop_request g /\
  recreate_gil g = create_gil g /\
  exists s',
    run (after_fork g ths) (take_free t ++ drop_free t) = Some s' /\
    pc (th s' t) = Idle /\ fatal s' = None /\
    gil_locked (sh s') = 0 /\
    gil_last_holder (sh s') = tstate_of t /\
    gil_switch_number (sh s') = ulong (gil_switch_number g + 1) /\
    gil_drop_request (sh s') = false.
Proof.
  intros g ths t. do 5 (split; [reflexivity|]).
  unfold take_free, drop_free, runs_of, after_fork.
  simpl repeat. simpl app.
  destruct g as [iv lk sw lh gc gm sc sm rq pa].
  destruct (ths t) as [p0 ts0 er0 to0 sv0 wu0 en0 ae0] eqn:E.
  unfold recreate_gil, create_gil. simpl.
  do 12 run_step.
  destruct rq; run_step; destruct ae0; do 11 run_step;
    (eexists; split; [reflexivity|]; setters; rewrite ?upd_same; cbn; repeat split).
Qed.

(** A parent that has taken the GIL once forks: in the child
    [recreate_gil] leaves the switch number at 1, and [take_gil];
    [drop_gil] ends with 2. *)
Lemma switch_number_survives_recreate_gil :
  exists parent child,
    run boot0 (take_free tA) = Some parent /\
    gil_switch_number (recreate_gil (sh parent)) = 1 /\
    run (after_fork (sh parent) (th parent)) (take_free tA ++ drop_free tA)
      = Some child /\
    gil_last_holder (sh child) = tstate_of tA /\
    gil_switch_number (sh child) = 2.
Proof.
  eexists; eexists. split; [vm_compute; reflexivity|].
  split; [reflexivity|]. split; [vm_compute; reflexivity|]. split; reflexivity.
Qed.

(** X9.  [take_gil] does return: a thread that finds the GIL and the two
    mutexes free, and nobody asleep on [switch_cond], runs through
    [take_gil] on its own and comes back holding the GIL, with the
    [errno] it had. *)
Lemma take_gil_returns_when_free : forall s t,
  fatal s = None -> pc (th s t) = Idle ->
  gil_locked (sh s) = 0 -> gil_mutex (sh s) = None ->
  switch_mutex (sh s) = None -> switch_cond (sh s) = [] ->
  exists n s',
    run s (CallTake t (tstate_of t) :: runs_of n t) = Some s' /\
    pc (th s' t) = Holding /\ errno (th s' t) = errno (th s t) /\
    gil_locked (sh s') = 1 /\ gil_last_holder (sh s') = tstate_of t.
Proof.
  intros [g f fa] t Hf Hpc Hl Hgm Hsm Hsc.
  destruct g as [iv lk sw lh gc gm sc sm rq pa].
  simpl in *. subst fa lk gm sm sc.
  destruct (f t) as [p0 ts0 er0 to0 sv0 wu0 en0 ae0] eqn:E.
  simpl in Hpc. subst p0.
  assert (C : lh = tstate_of t \/ lh = NULL \/
              exists q, lh = N.pos q /\ Pos.eqb t q = false).
  { destruct lh as [|q]; [right; left; reflexivity|].
    destruct (Pos.eqb_spec t q) as [->|Hq]; [left; reflexivity|].
    right; right. exists q. split; [reflexivity|]. now apply Pos.eqb_neq. }
  destruct C as [-> | [-> | (q & -> & Hq)]].
  - exists 13%nat. unfold runs_of. simpl repeat.
    do 10 run_step.
    destruct rq; run_step; destruct ae0; do 3 run_step;
      (eexists; split; [reflexivity|]; setters; rewrite ?upd_same; cbn; repeat split).
  - exists 15%nat. unfold runs_of. simpl repeat.
    do 12 run_step.
    destruct rq; run_step; destruct ae0; do 3 run_step;
      (eexists; split; [reflexivity|]; setters; rewrite ?upd_same; cbn; repeat split).
  - exists 15%nat. unfold runs_of. simpl repeat.
    do 8 run_step. rewrite Hq. cbn.
    do 4 run_step.
    destruct rq; run_step; destruct ae0; do 3 run_step;
      (eexists; split; [reflexivity|]; setters; rewrite ?upd_same; cbn; repeat split).
Qed.

(** ** The drop request *)


Lemma exec_fatal : forall s e s', exec s e = Some s' -> fatal s = None.
Proof. unfold exec; intros s e s' H. destruct (fatal s); [discriminate | reflexivity]. Qed.



Section WaitLoop.

Variable t : tid.
Variable sw0 : Z.



End WaitLoop.


(** ** The checks of [drop_gil] *)

Lemma drop_gil_checks_spec : forall g ts,
  drop_gil_checks g ts <> None <->
  gil_locked g = 0 \/ (ts <> NULL /\ ts <> gil_last_holder g).
Proof.
  intros g ts. unfold drop_gil_checks, drop_gil_locked_check, drop_gil_tstate_check, c_true.
  destruct (Z.eqb_spec (gil_locked g) 0); simpl.
  - split; [auto | intros _; discriminate].
  - destruct (N.eqb_spec ts NULL); destruct (N.eqb_spec ts (gil_last_holder g)); simpl;
      split; intros H; try congruence; try tauto; try (right; split; assumption);
      try discriminate.
Qed.

Lemma exec_Run : forall s t s',
  exec s (Run t) = Some s' -> fatal s = None /\ stmt s t = Some s'.
Proof.
  unfold exec; intros s t s' H. destruct (fatal s); [discriminate|]. auto.
Qed.

(** C7 (as amended).  On an initialised lock ([gil_locked] is 0 or 1)
    [drop_gil (t)] aborts if and only if the GIL is not taken or [t] is
    not [NULL] and differs from [gil_last_holder]; in general the two
    checks fail exactly when [gil_locked] is 0 or [t] is a wrong thread
    state.  The first check is made at line 247, the second at line 249,
    and no later statement of [drop_gil] aborts: with the GIL taken and
    [t] either [NULL] or the last holder, [drop_gil] never aborts. *)
Theorem drop_gil_aborts_iff :
  (forall g ts,
      gil_locked g = 0 \/ gil_locked g = 1 ->
      (drop_gil_checks g ts <> None <->
       gil_locked g <> 1 \/ (ts <> NULL /\ ts <> gil_last_holder g))) /\
  (forall g ts,
      drop_gil_checks g ts <> None <->
      gil_locked g = 0 \/ (ts <> NULL /\ ts <> gil_last_holder g)) /\
  (forall s t s',
      pc (th s t) = D247 -> exec s (Run t) = Some s' ->
      (fatal s' <> None <-> gil_locked (sh s) = 0)) /\
  (forall s t s',
      pc (th s t) = D249 -> exec s (Run t) = Some s' ->
      (fatal s' <> None <->
       tstate (th s t) <> NULL /\ tstate (th s t) <> gil_last_holder (sh s))) /\
  (forall s t s',
      drop_checked (pc (th s t)) = true -> exec s (Run t) = Some s' ->
      fatal s' = None).
Proof.
  split; [|split; [exact drop_gil_checks_spec|]].
  { intros g ts Hr. rewrite drop_gil_checks_spec.
    split; (intros [H|H]; [left; lia | right; exact H]). }
  split; [|split].
  - intros s t s' Hpc H. apply exec_Run in H. destruct H as [Hf H].
    unfold stmt, take_gil, drop_gil in H. rewrite Hpc in H.
    unfold drop_gil_locked_check, c_true in H.
    destruct (Z.eqb_spec (gil_locked (sh s)) 0); simpl in H;
      inversion H; subst s'; simpl; split; intros; try congruence.
  - intros s t s' Hpc H. apply exec_Run in H. destruct H as [Hf H].
    unfold stmt, take_gil, drop_gil in H. rewrite Hpc in H.
    unfold drop_gil_tstate_check in H.
    destruct (N.eqb_spec (tstate (th s t)) NULL);
      destruct (N.eqb_spec (tstate (th s t)) (gil_last_holder (sh s)));
      simpl in H; inversion H; subst s'; simpl; split; intros;
      try congruence; try tauto.
  - intros s t s' Hpc H. apply exec_Run in H. destruct H as [Hf H].
    rewrite <- Hf. unfold stmt, take_gil, drop_gil in H.
    destruct (pc (th s t)); try discriminate;
      repeat split_if; try discriminate; inversion H; subst s'; reflexivity.
Qed.

(** Before [create_gil] the GIL is not taken, and [drop_gil (NULL)]
    passes both checks and runs to its end. *)
Lemma drop_gil_uninitialized_passes :
  gil_locked static_gil <> 1 /\
  drop_gil_checks static_gil NULL = None /\
  exists s',
    run (mk_state static_gil (fun _ => set_pc D247 thread0) None) (runs_of 7 tA)
      = Some s' /\
    pc (th s' tA) = Idle /\ fatal s' = None /\ gil_locked (sh s') = 0.
Proof.
  split; [discriminate|]. split; [reflexivity|].
  eexists; split; [vm_compute; reflexivity|]. repeat split.
Qed.

(** ** The switch interval *)

(** C8.  For every [v >= 1], [_PyEval_GetSwitchInterval] after
    [_PyEval_SetSwitchInterval (v)] returns [v], and [v] is the interval
    of the timed wait; after [_PyEval_SetSwitchInterval (0)] the timed wait
    of [take_gil] is handed 1 microsecond (the floor is applied when the
    interval is read), and its deadline is one microsecond after the
    time of day. *)
Theorem switch_interval_round_trip : forall g v,
  1 <= v ->
  _PyEval_GetSwitchInterval (_PyEval_SetSwitchInterval v g) = v /\
  INTERVAL (_PyEval_SetSwitchInterval v g) = v /\
  INTERVAL (_PyEval_SetSwitchInterval 0 g) = 1 /\
  (forall s t,
      gil_interval (sh s) = 0 -> pc (th s t) = T289 ->
      exists s', take_gil s t = Some s' /\ pc (th s' t) = T289w /\
                 wait_us (th s' t) = 1) /\
  (forall now,
      0 <= Posix.tv_usec now < 1000000 ->
      Posix.microseconds_of
        (Posix.deadline now (_PyEval_SetSwitchInterval 0 g))
      = Posix.microseconds_of now + 1).
Proof.
  intros g v Hv. split; [reflexivity|]. split; [|split; [reflexivity|split]].
  - unfold INTERVAL; simpl. destruct (Z.leb_spec 1 v); [reflexivity|lia].
  - intros s t Hi Hpc. unfold take_gil. rewrite Hpc.
    eexists; split; [reflexivity|]. simpl. rewrite upd_same; simpl.
    split; [reflexivity|]. unfold INTERVAL. now rewrite Hi.
  - intros now Hnow.
    unfold Posix.deadline, Posix.ADD_MICROSECONDS, Posix.microseconds_of, INTERVAL.
    simpl Posix.tv_sec; simpl Posix.tv_usec. simpl gil_interval.
    change (if 1 <=? 0 then 0 else 1) with 1.
    change (Posix.to_long 1) with 1.
    assert (E : Posix.to_long (Posix.tv_usec now + 1) = Posix.tv_usec now + 1).
    { unfold Posix.to_long.
      rewrite Z.mod_small; [lia|]. split; [lia|].
      assert (2 ^ 63 + 1000001 < 2 ^ 64) by (vm_compute; reflexivity). lia. }
    rewrite E.
    pose proof (Z.quot_rem' (Posix.tv_usec now + 1) 1000000). lia.
Qed.

Lemma switch_interval_round_trip_witness :
  _PyEval_GetSwitchInterval (_PyEval_SetSwitchInterval 1000 static_gil) = 1000 /\
  INTERVAL (_PyEval_SetSwitchInterval 1000 static_gil) = 1000.
Proof.
  pose proof (switch_interval_round_trip static_gil 1000 ltac:(lia)) as H.
  split; apply H.
Defined.

(** ** Releasing without a thread state *)

(** C10.  [drop_gil (NULL)] is never aborted for a wrong thread state; at
    line 264 it goes to the wait only if [gil_last_holder] is [NULL] too;
    and in every reachable state, where some take has made a thread state
    the last holder before any drop, a [drop_gil (NULL)] is never at, in
    or back from the wait on [switch_cond]: from line 264 it goes
    straight to the unlock of line 266, drop request or not. *)
Theorem drop_gil_NULL_never_waits :
  (forall g, drop_gil_tstate_check g NULL = None) /\
  (forall s t,
      pc (th s t) = D264 -> tstate (th s t) = NULL ->
      drop_gil s t =
        Some (next s t (if N.eqb (gil_last_holder (sh s)) NULL then D265 else D266)
                (sh s) (th s t))) /\
  (forall s t,
      reachable s -> in_drop (pc (th s t)) = true -> tstate (th s t) = NULL ->
      in_handoff (pc (th s t)) = false /\
      (pc (th s t) = D264 ->
       drop_gil s t = Some (next s t D266 (sh s) (th s t)))).
Proof.
  split; [reflexivity|]. split.
  - intros s t Hpc Hts. unfold drop_gil. rewrite Hpc, Hts.
    destruct (N.eqb (gil_last_holder (sh s)) NULL); reflexivity.
  - intros s t Hs Hd Hts. apply reachable_Inv in Hs. split.
    + destruct (in_handoff (pc (th s t))) eqn:Hh; [|reflexivity].
      pose proof (inv_handoff_tstate _ Hs t Hh) as E. rewrite Hts in E.
      symmetry in E. now apply tstate_of_not_NULL in E.
    + intros Hpc. unfold drop_gil. rewrite Hpc, Hts.
      assert (Hp : has_published (pc (th s t)) = true) by (rewrite Hpc; reflexivity).
      pose proof (inv_has_published _ Hs t Hp) as Hn.
      apply N.eqb_neq in Hn. now rewrite Hn.
Qed.

(** ** The executions the theorems are applied to *)

Lemma not_returned_inside_call : forall t s e,
  not_returned t s e = true -> inside_call t s e.
Proof. unfold not_returned, inside_call; intros t s e H. now apply negb_true_iff. Qed.


(** [B] takes after [A]: the switch number goes from 1 to 2. *)
Example second_taker_counts :
  gil_switch_number (sh (state_after second_taker_ready)) = 1 /\
  gil_switch_number (sh (state_after (second_taker_ready ++ second_taker_through)))
    = 2.
Proof. split; vm_compute; reflexivity. Qed.

Lemma take_gil_restores_errno_witness :
  errno (th (state_after (errno_entry ++ errno_clobbered)) tA)
  = errno (th (state_after errno_entry) tA).
Proof.
  apply (take_gil_restores_errno tA
           (state_after errno_entry)
           (state_after (errno_entry ++ errno_clobbered))).
  - vm_compute. reflexivity.
  - apply run_checked_steps with (p := not_returned tA) (evs := errno_clobbered).
    + apply not_returned_inside_call.
    + vm_compute. reflexivity.
  - vm_compute. reflexivity.
Defined.

(** The library did change [errno] during that call. *)
Example errno_was_clobbered :
  errno (th (state_after errno_entry) tA) = 5 /\
  errno (th (state_after (errno_entry ++ runs_of 2 tA ++ [LibErrno tA 11])) tA) = 11 /\
  errno (th (state_after (errno_entry ++ errno_clobbered)) tA) = 5.
Proof. vm_compute. repeat split. Qed.

Lemma switch_count_formula_witness :
  let ids := takes (boot static_gil (fun _ => thread0)) three_takes in
  gil_switch_number (sh (state_after three_takes)) =
    ulong (gil_switch_number static_gil
           + (Z.of_nat (List.length ids) - Z.of_nat (adjacent_equal ids)))
  /\ gil_last_holder (sh (state_after three_takes)) = last_holder_of ids.
Proof.
  apply (switch_count_formula static_gil (fun _ => thread0) three_takes
           (state_after three_takes)).
  - vm_compute. split; discriminate.
  - apply state_after_run. vm_compute. discriminate.
  - vm_compute. exact I.
Defined.

(** [A], [A], [B]: three takes, one repetition, two switches. *)
Example three_takes_two_switches :
  takes boot0 three_takes = [tA; tA; tB] /\
  adjacent_equal (takes boot0 three_takes) = 1%nat /\
  gil_switch_number (sh (state_after three_takes)) = 2.
Proof. vm_compute. repeat split. Qed.

(** The very first take is counted: the specification's formula gives 0
    for it, the code counts 1. *)
Lemma first_take_is_counted :
  takes boot0 (take_free tA) = [tA] /\
  gil_switch_number (sh (state_after (take_free tA)))
    - gil_switch_number (sh boot0) = 1 /\
  specified_increase (takes boot0 (take_free tA)) true = 0.
Proof. vm_compute. repeat split. Qed.


(** The wait of [B] expires while [A] still holds the GIL and nobody has
    taken it in between: line 293 sets the drop request. *)
Example expired_wait_sets_the_request :
  wait_returns tB timed_wait_expires = [true] /\
  gil_drop_request (sh (state_after (waiter_at_288 ++ timed_wait_expires))) = false /\
  gil_drop_request
    (sh (state_after (waiter_at_288 ++ timed_wait_expires ++ [Run tB]))) = true /\
  pc (th (state_after (waiter_at_288 ++ timed_wait_expires ++ [Run tB])) tB) = T284.
Proof. vm_compute. repeat split. Qed.

(** The wait of [B] returns without a timeout while [A] still holds the
    GIL: the drop request is left alone. *)
Example wakeup_without_timeout_sets_no_request :
  wait_returns tB timed_wait_cut_short = [false] /\
  gil_locked (sh (state_after (waiter_at_288 ++ timed_wait_cut_short))) = 1 /\
  gil_switch_number (sh (state_after (waiter_at_288 ++ timed_wait_cut_short)))
    = gil_switch_number (sh (state_after waiter_at_288)) /\
  gil_drop_request
    (sh (state_after (waiter_at_288 ++ timed_wait_cut_short ++ [Run tB]))) = false /\
  pc (th (state_after (waiter_at_288 ++ timed_wait_cut_short ++ [Run tB])) tB) = T284.
Proof. vm_compute. repeat split. Qed.

(** The wait of [B] expires with the GIL taken, but [C] took it over
    from [A] during the wait: the switch number is no longer the one [B]
    saved, and the drop request is left alone. *)
Example switch_during_wait_sets_no_request :
  pc (th (state_after two_waiters) tB) = T288 /\
  wait_returns tB overtaken_while_asleep = [true] /\
  gil_locked (sh (state_after (two_waiters ++ overtaken_while_asleep))) = 1 /\
  gil_switch_number (sh (state_after two_waiters)) = 1 /\
  gil_switch_number (sh (state_after (two_waiters ++ overtaken_while_asleep))) = 2 /\
  saved_switchnum (th (state_after (two_waiters ++ overtaken_while_asleep)) tB) = 1 /\
  pc (th (state_after (two_waiters ++ overtaken_while_asleep)) tB) = T292 /\
  gil_drop_request
    (sh (state_after (two_waiters ++ overtaken_while_asleep ++ [Run tB]))) = false /\
  pc (th (state_after (two_waiters ++ overtaken_while_asleep ++ [Run tB])) tB) = T284.
Proof. vm_compute. repeat split. Qed.

Lemma drop_gil_aborts_iff_witness :
  drop_gil_checks (sh (state_after (take_free tA))) (tstate_of tB) <> None <->
  gil_locked (sh (state_after (take_free tA))) <> 1 \/
  (tstate_of tB <> NULL /\
   tstate_of tB <> gil_last_holder (sh (state_after (take_free tA)))).
Proof.
  apply (proj1 drop_gil_aborts_iff). right. vm_compute. reflexivity.
Defined.

(** With [A] holding the GIL, [drop_gil] is aborted for the thread state
    of [B] and passes for that of [A] and for [NULL]. *)
Example drop_gil_checks_held :
  drop_gil_checks (sh (state_after (take_free tA))) (tstate_of tB)
    = Some "drop_gil: wrong thread state"%string /\
  drop_gil_checks (sh (state_after (take_free tA))) (tstate_of tA) = None /\
  drop_gil_checks (sh (state_after (take_free tA))) NULL = None /\
  drop_gil_checks (sh (state_after (take_free tA ++ drop_free tA))) (tstate_of tA)
    = Some "drop_gil: GIL is not locked"%string.
Proof. vm_compute. repeat split. Qed.

Lemma drop_gil_NULL_never_waits_witness :
  pc (th (state_after drop_NULL_at_264) tA) = D264 /\
  gil_drop_request (sh (state_after drop_NULL_at_264)) = true /\
  in_handoff (pc (th (state_after drop_NULL_at_264) tA)) = false /\
  drop_gil (state_after drop_NULL_at_264) tA =
    Some (next (state_after drop_NULL_at_264) tA D266
            (sh (state_after drop_NULL_at_264))
            (th (state_after drop_NULL_at_264) tA)).
Proof.
  split; [vm_compute; reflexivity|]. split; [vm_compute; reflexivity|].
  destruct (proj2 (proj2 drop_gil_NULL_never_waits)
              (state_after drop_NULL_at_264) tA) as [H1 H2].
  - apply state_after_reachable. vm_compute. discriminate.
  - vm_compute. reflexivity.
  - vm_compute. reflexivity.
  - split; [exact H1 | apply H2; vm_compute; reflexivity].
Defined.

(** ** The forced handoff, cut short *)

(** C2, the execution on which the code breaks it.  [A] holds the GIL and
    [B] has set the drop request.  [A] calls [drop_gil] on its own thread
    state, signals [B] and goes to sleep at line 265, [gil_last_holder]
    being [A].  [pthread_cond_wait] returns without a signal; line 264 is
    an [if], not a loop, so [A] unlocks and returns from [drop_gil].  In
    all fourteen states of the call [gil_last_holder] is [A]: no other
    thread has become the last holder, [B] has not even run. *)
Theorem drop_gil_returns_without_successor :
  let called := state_after (contended ++ [CallDrop tA (tstate_of tA)]) in
  let back := state_after (contended ++ CallDrop tA (tstate_of tA) :: drop_cut_short) in
  reachable called /\
  pc (th called tA) = D247 /\ tstate (th called tA) = tstate_of tA /\
  gil_drop_request (sh called) = true /\
  run called drop_cut_short = Some back /\
  pc (th back tA) = Idle /\ fatal back = None /\
  forallb (last_holder_is tA) (states_of called drop_cut_short) = true /\
  List.length (states_of called drop_cut_short) = 14%nat.
Proof.
  intros called back. split.
  - apply state_after_reachable. vm_compute. discriminate.
  - vm_compute. repeat split.
Qed.

(** * More of the file *)

(** ** [gil_created] *)

(** X1.  [gil_created] is false before [create_gil], true right after
    [create_gil] and [recreate_gil], and true in every state the threads
    can reach afterwards: [take_gil] and [drop_gil] only ever leave 0 or 1
    in [gil_locked]. *)
Theorem gil_created_once_created :
  gil_created static_gil = false /\
  (forall g, gil_created (create_gil g) = true /\
             gil_created (recreate_gil g) = true) /\
  (forall s, reachable s ->
             gil_created (sh s) = true /\
             (gil_locked (sh s) = 0 \/ gil_locked (sh s) = 1)).
Proof.
  split; [reflexivity|]. split; [intros g; split; reflexivity|].
  intros s Hs. apply reachable_Inv in Hs.
  pose proof (inv_locked_range _ Hs) as Hr. split; [|exact Hr].
  unfold gil_created. destruct Hr as [-> | ->]; reflexivity.
Qed.

Lemma gil_created_once_created_witness :
  gil_created (sh (state_after contended)) = true /\
  (gil_locked (sh (state_after contended)) = 0 \/
   gil_locked (sh (state_after contended)) = 1).
Proof.
  apply (proj2 (proj2 gil_created_once_created)).
  apply state_after_reachable. vm_compute. discriminate.
Defined.

(** ** [take_gil (NULL)] *)

(** X2.  A call of [take_gil] with [NULL] ends the process with the
    message of line 275 before it has touched anything: the variables
    of the lock and the locals of all other threads are as they were, no
    mutex is taken, and no thread moves any more. *)
Theorem take_gil_NULL_is_fatal : forall s t,
  fatal s = None -> pc (th s t) = Idle ->
  exists s',
    run s [CallTake t NULL; Run t] = Some s' /\
    fatal s' = Some "take_gil: NULL tstate"%string /\
    sh s' = sh s /\
    (forall u, u <> t -> th s' u = th s u) /\
    (forall e, exec s' e = None).
Proof.
  intros s t Hf Hpc.
  unfold run. rewrite (exec_live _ _ Hf). simpl. rewrite Hpc. simpl.
  rewrite exec_live by (simpl; exact Hf).
  simpl. unfold stmt, take_gil. simpl. rewrite upd_same. simpl.
  eexists. split; [reflexivity|]. simpl.
  split; [reflexivity|]. split; [reflexivity|]. split.
  - intros u Hu. now apply upd_other.
  - intros e. reflexivity.
Qed.

Lemma take_gil_NULL_is_fatal_witness :
  exists s',
    run boot0 [CallTake tA NULL; Run tA] = Some s' /\
    fatal s' = Some "take_gil: NULL tstate"%string /\
    sh s' = sh boot0 /\
    (forall u, u <> tA -> th s' u = th boot0 u) /\
    (forall e, exec s' e = None).
Proof.
  apply (take_gil_NULL_is_fatal boot0 tA); reflexivity.
Defined.

(** ** The locking discipline *)

Lemma stmt_changes : forall s u s',
  stmt s u = Some s' ->
  (gil_locked (sh s') <> gil_locked (sh s) ->
   pc (th s u) = T302 \/ pc (th s u) = D253) /\
  (gil_last_holder (sh s') <> gil_last_holder (sh s) -> pc (th s u) = T305) /\
  (gil_switch_number (sh s') <> gil_switch_number (sh s) -> pc (th s u) = T306) /\
  (gil_drop_request (sh s') <> gil_drop_request (sh s) ->
   pc (th s u) = T292 \/ pc (th s u) = T312).
Proof.
  unfold stmt, take_gil, drop_gil; intros s u s' H.
  destruct (pc (th s u)); try discriminate;
    repeat split_if; try discriminate; inversion H; subst; simpl;
    repeat split; intros; auto; congruence.
Qed.

Lemma exec_changes : forall s e s',
  exec s e = Some s' ->
  gil_locked (sh s') <> gil_locked (sh s) \/
  gil_last_holder (sh s') <> gil_last_holder (sh s) \/
  gil_switch_number (sh s') <> gil_switch_number (sh s) \/
  gil_drop_request (sh s') <> gil_drop_request (sh s) ->
  exists u, e = Run u /\ stmt s u = Some s'.
Proof.
  intros s e s' H Hc.
  assert (D : (exists u, e = Run u) \/ forall l, ~ writer s e l).
  { destruct e; try (right; intros l (u & Hu & _); discriminate).
    left. exists t. reflexivity. }
  destruct D as [(u & ->) | N].
  - exists u. split; [reflexivity|]. now apply exec_Run in H.
  - exfalso. destruct (exec_writes _ _ _ H) as (W1 & W2 & W3 & W4).
    rewrite W1, W2, W3, W4 in Hc by apply N. intuition congruence.
Qed.

(** X3.  The variables the mutexes protect are written under them: in
    every reachable state a step that changes [gil_locked],
    [gil_last_holder], [gil_switch_number] or the drop request is a
    statement of the thread that holds [gil_mutex], and one that changes
    [gil_last_holder] or [gil_switch_number] is made by the thread that
    holds [switch_mutex] as well. *)
Theorem protected_variables_written_under_mutex : forall s e s',
  reachable s -> exec s e = Some s' ->
  (gil_locked (sh s') <> gil_locked (sh s) \/
   gil_drop_request (sh s') <> gil_drop_request (sh s) ->
   exists u, e = Run u /\ gil_mutex (sh s) = Some u) /\
  (gil_last_holder (sh s') <> gil_last_holder (sh s) \/
   gil_switch_number (sh s') <> gil_switch_number (sh s) ->
   exists u, e = Run u /\ gil_mutex (sh s) = Some u /\
             switch_mutex (sh s) = Some u).
Proof.
  intros s e s' Hs H. apply reachable_Inv in Hs. split; intros Hc.
  - destruct (exec_changes _ _ _ H) as (u & -> & Hu); [tauto|].
    exists u. split; [reflexivity|].
    destruct (stmt_changes _ _ _ Hu) as (C1 & _ & _ & C4).
    apply (inv_gil_mutex_held _ Hs).
    destruct Hc as [Hc|Hc]; [destruct (C1 Hc) as [E|E] | destruct (C4 Hc) as [E|E]];
      rewrite E; reflexivity.
  - destruct (exec_changes _ _ _ H) as (u & -> & Hu); [tauto|].
    exists u. split; [reflexivity|].
    destruct (stmt_changes _ _ _ Hu) as (_ & C2 & C3 & _).
    assert (E : pc (th s u) = T305 \/ pc (th s u) = T306) by tauto.
    split; [apply (inv_gil_mutex_held _ Hs) | apply (inv_switch_mutex_held _ Hs)];
      destruct E as [E|E]; rewrite E; reflexivity.
Qed.

Lemma protected_variables_written_under_mutex_witness :
  exists u, Run tA = Run u /\
            gil_mutex (sh (state_after (first_take_window ++ [Run tA]))) = Some u /\
            switch_mutex (sh (state_after (first_take_window ++ [Run tA]))) = Some u.
Proof.
  apply (proj2 (protected_variables_written_under_mutex
                  (state_after (first_take_window ++ [Run tA])) (Run tA)
                  (state_after (first_take_window ++ [Run tA; Run tA]))
                  ltac:(apply state_after_reachable; vm_compute; discriminate)
                  ltac:(vm_compute; reflexivity))).
  left. vm_compute. discriminate.
Defined.

(** X4.  The mutexes are used as POSIX requires and cannot deadlock one
    another: in every reachable state at most one thread is inside the
    regions of a mutex; a thread that unlocks a mutex or waits on a
    condition with it owns it; a thread that locks a mutex does not own
    it already; and a thread that locks [gil_mutex] holds no
    [switch_mutex], so the two are never taken in opposite orders. *)
Theorem mutexes_well_used : forall s, reachable s ->
  (forall t u,
      holds_gil_mutex (pc (th s t)) = true ->
      holds_gil_mutex (pc (th s u)) = true -> t = u) /\
  (forall t u,
      holds_switch_mutex (pc (th s t)) = true ->
      holds_switch_mutex (pc (th s u)) = true -> t = u) /\
  (forall t, releases_gil_mutex (pc (th s t)) = true ->
             gil_mutex (sh s) = Some t) /\
  (forall t, releases_switch_mutex (pc (th s t)) = true ->
             switch_mutex (sh s) = Some t) /\
  (forall t, locks_gil_mutex (pc (th s t)) = true ->
             gil_mutex (sh s) <> Some t /\ switch_mutex (sh s) <> Some t) /\
  (forall t, locks_switch_mutex (pc (th s t)) = true ->
             switch_mutex (sh s) <> Some t).
Proof.
  intros s Hs. apply reachable_Inv in Hs.
  split; [|split; [|split; [|split; [|split]]]].
  - intros t u Ht Hu.
    pose proof (inv_gil_mutex_held _ Hs t Ht).
    pose proof (inv_gil_mutex_held _ Hs u Hu). congruence.
  - intros t u Ht Hu.
    pose proof (inv_switch_mutex_held _ Hs t Ht).
    pose proof (inv_switch_mutex_held _ Hs u Hu). congruence.
  - intros t Ht. apply (inv_gil_mutex_held _ Hs).
    destruct (pc (th s t)); simpl in *; congruence.
  - intros t Ht. apply (inv_switch_mutex_held _ Hs).
    destruct (pc (th s t)); simpl in *; congruence.
  - intros t Ht. split; intros E.
    + apply (inv_gil_mutex_owner _ Hs) in E.
      destruct (pc (th s t)); simpl in *; congruence.
    + apply (inv_switch_mutex_owner _ Hs) in E.
      destruct (pc (th s t)); simpl in *; congruence.
  - intros t Ht E. apply (inv_switch_mutex_owner _ Hs) in E.
    destruct (pc (th s t)); simpl in *; congruence.
Qed.

Lemma mutexes_well_used_witness :
  switch_mutex (sh (state_after first_take_at_310)) = Some tA.
Proof.
  apply (proj1 (proj2 (proj2 (proj2
           (mutexes_well_used (state_after first_take_at_310)
              ltac:(apply state_after_reachable; vm_compute; discriminate)))))).
  vm_compute. reflexivity.
Defined.

(** ** The deadline of the timed wait *)

Lemma to_long_small : forall z, - 2 ^ 63 <= z < 2 ^ 63 -> Posix.to_long z = z.
Proof.
  intros z Hz. unfold Posix.to_long.
  assert (2 ^ 64 = 2 * 2 ^ 63) by reflexivity.
  rewrite Z.mod_small; lia.
Qed.

Lemma to_long_large : forall z,
  2 ^ 63 <= z < 2 ^ 64 -> Posix.to_long z = z - 2 ^ 64.
Proof.
  intros z Hz. unfold Posix.to_long.
  assert (E : 2 ^ 64 = 2 * 2 ^ 63) by reflexivity.
  replace (z + 2 ^ 63) with ((z - 2 ^ 63) + 1 * 2 ^ 64) by lia.
  rewrite Z.mod_add by lia. rewrite Z.mod_small; lia.
Qed.

(** X5.  [ADD_MICROSECONDS] adds: for a time of day with its microseconds
    in [0, 10^6) and an interval of at most [2^63 - 10^6] microseconds
    (so that neither the cast to [long] nor the sum leaves the type), the
    result is that many microseconds later and has its microseconds in
    [0, 10^6) again; the nanoseconds handed to [pthread_cond_timedwait]
    are then in [0, 10^9).  So the timed wait of [take_gil] gets the
    deadline now + [INTERVAL]. *)
Theorem ADD_MICROSECONDS_adds : forall tv interval,
  0 <= Posix.tv_usec tv < 1000000 ->
  0 <= interval <= 2 ^ 63 - 1000000 ->
  Posix.microseconds_of (Posix.ADD_MICROSECONDS tv interval)
    = Posix.microseconds_of tv + interval /\
  0 <= Posix.tv_usec (Posix.ADD_MICROSECONDS tv interval) < 1000000 /\
  0 <= timespec_nsec (Posix.ADD_MICROSECONDS tv interval) < 1000000000.
Proof.
  intros tv i Htv Hi.
  assert (P63 : 2 ^ 63 = 9223372036854775808) by reflexivity.
  unfold Posix.ADD_MICROSECONDS, Posix.microseconds_of, timespec_nsec.
  simpl Posix.tv_sec; simpl Posix.tv_usec.
  rewrite (to_long_small i) by lia.
  rewrite (to_long_small (Posix.tv_usec tv + i)) by lia.
  pose proof (Z.quot_rem' (Posix.tv_usec tv + i) 1000000) as Q.
  pose proof (Z.rem_bound_pos (Posix.tv_usec tv + i) 1000000 ltac:(lia) ltac:(lia)).
  lia.
Qed.

Lemma ADD_MICROSECONDS_adds_witness :
  Posix.microseconds_of
    (Posix.ADD_MICROSECONDS (Posix.mk_timeval 10 999999) 5000)
    = Posix.microseconds_of (Posix.mk_timeval 10 999999) + 5000 /\
  0 <= Posix.tv_usec (Posix.ADD_MICROSECONDS (Posix.mk_timeval 10 999999) 5000)
    < 1000000 /\
  0 <= timespec_nsec (Posix.ADD_MICROSECONDS (Posix.mk_timeval 10 999999) 5000)
    < 1000000000.
Proof.
  apply (ADD_MICROSECONDS_adds (Posix.mk_timeval 10 999999) 5000).
  - simpl. lia.
  - vm_compute. split; discriminate.
Defined.

(** X6.  A switch interval of [2^63] microseconds or more does not give a
    long wait but none: the cast [(long) interval] of line 78 makes it
    negative, the deadline lies [2^64 - interval] microseconds before the
    time of day, and when that reaches below the current second the
    microseconds field, hence [tv_nsec], comes out negative or zero. *)
Theorem huge_interval_deadline_in_the_past : forall g now,
  2 ^ 63 <= gil_interval g <= ULONG_MAX ->
  0 <= Posix.tv_usec now < 1000000 ->
  Posix.microseconds_of (Posix.deadline now g)
    = Posix.microseconds_of now - (2 ^ 64 - gil_interval g) /\
  Posix.microseconds_of (Posix.deadline now g) < Posix.microseconds_of now /\
  (Posix.tv_usec now < 2 ^ 64 - gil_interval g ->
   timespec_nsec (Posix.deadline now g) <= 0).
Proof.
  intros g now Hi Hnow.
  assert (P63 : 2 ^ 63 = 9223372036854775808) by reflexivity.
  assert (P64 : 2 ^ 64 = 18446744073709551616) by reflexivity.
  unfold ULONG_MAX in Hi.
  unfold Posix.deadline, INTERVAL.
  destruct (Z.leb_spec 1 (gil_interval g)); [|lia].
  unfold Posix.ADD_MICROSECONDS, Posix.microseconds_of, timespec_nsec.
  simpl Posix.tv_sec; simpl Posix.tv_usec.
  rewrite (to_long_large (gil_interval g)) by lia.
  rewrite (to_long_small (Posix.tv_usec now + (gil_interval g - 2 ^ 64))) by lia.
  pose proof (Z.quot_rem' (Posix.tv_usec now + (gil_interval g - 2 ^ 64)) 1000000) as Q.
  split; [lia|]. split; [lia|].
  intros Hneg.
  pose proof (Z.rem_nonpos (Posix.tv_usec now + (gil_interval g - 2 ^ 64)) 1000000
                ltac:(lia)).
  lia.
Qed.

Lemma huge_interval_deadline_in_the_past_witness :
  Posix.microseconds_of
    (Posix.deadline (Posix.mk_timeval 10 0)
       (_PyEval_SetSwitchInterval ULONG_MAX static_gil))
    = Posix.microseconds_of (Posix.mk_timeval 10 0)
      - (2 ^ 64 - gil_interval (_PyEval_SetSwitchInterval ULONG_MAX static_gil)) /\
  Posix.microseconds_of
    (Posix.deadline (Posix.mk_timeval 10 0)
       (_PyEval_SetSwitchInterval ULONG_MAX static_gil))
    < Posix.microseconds_of (Posix.mk_timeval 10 0) /\
  (Posix.tv_usec (Posix.mk_timeval 10 0)
     < 2 ^ 64 - gil_interval (_PyEval_SetSwitchInterval ULONG_MAX static_gil) ->
   timespec_nsec
     (Posix.deadline (Posix.mk_timeval 10 0)
        (_PyEval_SetSwitchInterval ULONG_MAX static_gil)) <= 0).
Proof.
  apply (huge_interval_deadline_in_the_past
           (_PyEval_SetSwitchInterval ULONG_MAX static_gil) (Posix.mk_timeval 10 0)).
  - vm_compute. split; discriminate.
  - simpl. lia.
Defined.

(** With the largest interval and a time of day on a full second the
    nanoseconds are -1000: not a valid [timespec]. *)
Example huge_interval_negative_nsec :
  timespec_nsec
    (Posix.deadline (Posix.mk_timeval 10 0)
       (_PyEval_SetSwitchInterval ULONG_MAX static_gil)) = -1000.
Proof. reflexivity. Qed.

(** X7.  On Windows the timed wait is given [INTERVAL / 1000]
    milliseconds: the interval rounded down to a millisecond, and no time
    at all for any switch interval below 1000 microseconds (the floor of
    one microsecond included). *)
Theorem nt_timeout_rounds_down : forall g,
  0 <= gil_interval g ->
  1000 * Nt.timeout_ms g <= INTERVAL g < 1000 * Nt.timeout_ms g + 1000 /\
  (gil_interval g < 1000 -> Nt.timeout_ms g = 0).
Proof.
  intros g Hg. unfold Nt.timeout_ms.
  assert (HI : 1 <= INTERVAL g /\ (gil_interval g < 1000 -> INTERVAL g < 1000)).
  { unfold INTERVAL. destruct (Z.leb_spec 1 (gil_interval g)); lia. }
  pose proof (Z.div_mod (INTERVAL g) 1000 ltac:(lia)).
  pose proof (Z.mod_pos_bound (INTERVAL g) 1000 ltac:(lia)).
  split; [lia|]. intros Hs. apply Z.div_small. lia.
Qed.

Lemma nt_timeout_rounds_down_witness :
  1000 * Nt.timeout_ms (_PyEval_SetSwitchInterval 999 static_gil)
    <= INTERVAL (_PyEval_SetSwitchInterval 999 static_gil)
    < 1000 * Nt.timeout_ms (_PyEval_SetSwitchInterval 999 static_gil) + 1000 /\
  (gil_interval (_PyEval_SetSwitchInterval 999 static_gil) < 1000 ->
   Nt.timeout_ms (_PyEval_SetSwitchInterval 999 static_gil) = 0).
Proof.
  apply (nt_timeout_rounds_down (_PyEval_SetSwitchInterval 999 static_gil)).
  simpl. lia.
Defined.

(** ** The second invariant *)

Lemma no_foreign_gil_mutex_writer : forall s e t l,
  Inv s -> holds_gil_mutex (pc (th s t)) = true -> touches e t = false ->
  holds_gil_mutex l = true -> ~ writer s e l.
Proof.
  intros s e t l I Ht Hn Hl (u & -> & Hu).
  apply touches_Run in Hn. apply Hn.
  rewrite <- Hu in Hl.
  pose proof (inv_gil_mutex_held _ I t Ht).
  pose proof (inv_gil_mutex_held _ I u Hl). congruence.
Qed.

Lemma no_foreign_switch_mutex_writer : forall s e t l,
  Inv s -> holds_switch_mutex (pc (th s t)) = true -> touches e t = false ->
  holds_switch_mutex l = true -> ~ writer s e l.
Proof.
  intros s e t l I Ht Hn Hl (u & -> & Hu).
  apply touches_Run in Hn. apply Hn.
  rewrite <- Hu in Hl.
  pose proof (inv_switch_mutex_held _ I t Ht).
  pose proof (inv_switch_mutex_held _ I u Hl). congruence.
Qed.

Lemma request_cleared_step : forall s e s1,
  Inv s -> Inv2 s -> exec s e = Some s1 ->
  forall t, request_cleared (pc (th s1 t)) = true ->
            gil_drop_request (sh s1) = false.
Proof.
  intros s e s1 I J H t.
  pose proof (inv_request_cleared _ J t) as Old.
  destruct (touches e t) eqn:Ht.
  - destruct (pc (th s t)) eqn:Hpc; touched e t Ht; compute_step H Hpc;
      try rewrite Hpc; simpl; intros; try discriminate; auto.
  - rewrite (exec_untouched _ _ _ _ H Ht). intros Hc.
    destruct (exec_writes _ _ _ H) as (_ & _ & W & _).
    assert (G : holds_gil_mutex (pc (th s t)) = true)
      by (destruct (pc (th s t)); simpl in *; congruence).
    rewrite W; auto; eapply no_foreign_gil_mutex_writer; eauto.
Qed.

Lemma new_holder_step : forall s e s1,
  Inv s -> Inv2 s -> exec s e = Some s1 ->
  forall t, pc (th s1 t) = T305 -> gil_last_holder (sh s1) <> tstate_of t.
Proof.
  intros s e s1 I J H t.
  pose proof (inv_new_holder _ J t) as Old.
  pose proof (inv_take_tstate _ I t) as Hts.
  destruct (touches e t) eqn:Ht.
  - destruct (pc (th s t)) eqn:Hpc; touched e t Ht; compute_step H Hpc;
      try rewrite Hpc; simpl; intros; try discriminate; auto.
    bools. specialize (Hts eq_refl). congruence.
  - rewrite (exec_untouched _ _ _ _ H Ht). intros Hc.
    destruct (exec_writes _ _ _ H) as (W & _).
    rewrite W; auto. eapply no_foreign_gil_mutex_writer; eauto.
    rewrite Hc; reflexivity.
Qed.

Lemma before_sleep_step : forall s e s1,
  Inv s -> Inv2 s -> exec s e = Some s1 ->
  forall t, pc (th s1 t) = D265 -> gil_last_holder (sh s1) = tstate_of t.
Proof.
  intros s e s1 I J H t.
  pose proof (inv_before_sleep _ J t) as Old.
  pose proof (inv_drop_tstate _ I t) as Hts.
  pose proof (inv_has_published _ I t) as Hnn.
  destruct (touches e t) eqn:Ht.
  - destruct (pc (th s t)) eqn:Hpc; touched e t Ht; compute_step H Hpc;
      try rewrite Hpc; simpl; intros; try discriminate; auto.
    bools. specialize (Hts eq_refl). specialize (Hnn eq_refl).
    destruct Hts; congruence.
  - rewrite (exec_untouched _ _ _ _ H Ht). intros Hc.
    destruct (exec_writes _ _ _ H) as (W & _).
    rewrite W; auto. eapply no_foreign_switch_mutex_writer; eauto.
    rewrite Hc; reflexivity.
Qed.

Lemma in_remove_other : forall (t w : tid) q,
  t <> w -> In t q -> In t (remove_tid w q).
Proof. intros t w q Hn Hin. unfold remove_tid. now apply in_in_remove. Qed.

Lemma wake_switch_cond_queue : forall s w s' t,
  wake_switch_cond s w = Some s' -> t <> w ->
  In t (switch_cond (sh s)) -> In t (switch_cond (sh s')).
Proof.
  unfold wake_switch_cond; intros s w s' t H Hn Hin.
  destruct (pc (th s w)); try discriminate. inversion H; subst; simpl.
  now apply in_remove_other.
Qed.

Lemma wake_gil_cond_queue : forall s w b s',
  wake_gil_cond s w b = Some s' -> switch_cond (sh s') = switch_cond (sh s).
Proof.
  unfold wake_gil_cond; intros s w b s' H.
  destruct (pc (th s w)); try discriminate. inversion H; subst; reflexivity.
Qed.

Lemma stmt_queue : forall s u s' t,
  stmt s u = Some s' ->
  In t (switch_cond (sh s)) -> In t (switch_cond (sh s')).
Proof.
  unfold stmt, take_gil, drop_gil; intros s u s' t H Hin.
  destruct (pc (th s u)); try discriminate;
    repeat split_if; try discriminate; inversion H; subst; simpl; auto.
  apply in_or_app; auto.
Qed.

(** Who is queued on [switch_cond] stays queued until it is woken. *)
Lemma exec_queue : forall s e s' t,
  exec s e = Some s' -> touches e t = false ->
  In t (switch_cond (sh s)) -> In t (switch_cond (sh s')).
Proof.
  unfold exec; intros s e s' t H Ht Hin. destruct (fatal s); [discriminate|].
  destruct e; simpl in *;
    try (apply orb_false_iff in Ht; destruct Ht as [Ht Ht']; apply Pos.eqb_neq in Ht');
    try apply Pos.eqb_neq in Ht.
  - destruct (pc (th s t0)); try discriminate.
    destruct (_ || _)%bool; try discriminate. inversion H; subst; auto.
  - destruct (pc (th s t0)); try discriminate. inversion H; subst; auto.
  - eapply stmt_queue; eauto.
  - destruct (pc (th s t0)); try discriminate.
    + destruct (mem_tid _ _); try discriminate.
      destruct (wake_switch_cond s w) as [s1|] eqn:Hw; try discriminate.
      inversion H; subst; simpl.
      eapply wake_switch_cond_queue; eauto.
    + destruct (mem_tid _ _); try discriminate.
      destruct (wake_gil_cond s w false) as [s1|] eqn:Hw; try discriminate.
      inversion H; subst; simpl.
      now rewrite (wake_gil_cond_queue _ _ _ _ Hw).
  - now rewrite (wake_gil_cond_queue _ _ _ _ H).
  - destruct (pc (th s t0)); try discriminate.
    + now rewrite (wake_gil_cond_queue _ _ _ _ H).
    + eapply wake_switch_cond_queue; eauto.
  - destruct (in_foreign_code _); try discriminate. inversion H; subst; auto.
  - destruct (_ && _)%bool; try discriminate. inversion H; subst; auto.
  - inversion H; subst; auto.
Qed.

Lemma sleeper_queued_step : forall s e s1,
  Inv s -> Inv2 s -> exec s e = Some s1 ->
  forall t, pc (th s1 t) = D265w -> In t (switch_cond (sh s1)).
Proof.
  intros s e s1 I J H t.
  pose proof (inv_sleeper_queued _ J t) as Old.
  destruct (touches e t) eqn:Ht.
  - destruct (pc (th s t)) eqn:Hpc; touched e t Ht; compute_step H Hpc;
      try rewrite Hpc; simpl; intros; try discriminate; auto.
    apply in_or_app; right; left; reflexivity.
  - rewrite (exec_untouched _ _ _ _ H Ht). intros Hc.
    eapply exec_queue; eauto.
Qed.

Lemma switch_mutex_one_holder : forall s t u,
  Inv s -> holds_switch_mutex (pc (th s t)) = true ->
  holds_switch_mutex (pc (th s u)) = true -> t = u.
Proof.
  intros s t u I Ht Hu.
  pose proof (inv_switch_mutex_held _ I t Ht).
  pose proof (inv_switch_mutex_held _ I u Hu). congruence.
Qed.

(** A thread is asleep at line 265 after a step only if it was before,
    or if the step is its own [COND_WAIT]. *)
Lemma falls_asleep : forall s e s1 t,
  exec s e = Some s1 -> pc (th s1 t) = D265w ->
  pc (th s t) = D265w \/ (e = Run t /\ pc (th s t) = D265).
Proof.
  intros s e s1 t H.
  destruct (touches e t) eqn:Ht.
  - destruct (pc (th s t)) eqn:Hpc; touched e t Ht; compute_step H Hpc;
      try rewrite Hpc; simpl; intros; try discriminate; auto.
  - rewrite (exec_untouched _ _ _ _ H Ht); auto.
Qed.

Lemma no_sleeper_beside : forall s t u,
  Inv s -> Inv2 s -> pc (th s t) = D265 -> pc (th s u) = D265w -> False.
Proof.
  intros s t u I J Ht Hu.
  pose proof (inv_before_sleep _ J t Ht) as Lt.
  destruct (inv_sleeper _ J u Hu) as [Lu | (w & Hw)].
  - assert (t = u) by (apply tstate_of_inj; congruence). subst; congruence.
  - assert (w = t).
    { apply (switch_mutex_one_holder s); auto.
      - destruct Hw as [Hw|Hw]; rewrite Hw; reflexivity.
      - rewrite Ht; reflexivity. }
    subst. destruct Hw; congruence.
Qed.

Lemma one_sleeper_step : forall s e s1,
  Inv s -> Inv2 s -> exec s e = Some s1 ->
  forall t u, pc (th s1 t) = D265w -> pc (th s1 u) = D265w -> t = u.
Proof.
  intros s e s1 I J H t u Ht Hu.
  destruct (falls_asleep _ _ _ _ H Ht) as [Ot | (Et & Ot)];
    destruct (falls_asleep _ _ _ _ H Hu) as [Ou | (Eu & Ou)].
  - eapply inv_one_sleeper; eauto.
  - exfalso; eapply no_sleeper_beside; eauto.
  - exfalso; eapply no_sleeper_beside; eauto.
  - congruence.
Qed.

Lemma writer_T305_dec : forall s e, writer s e T305 \/ ~ writer s e T305.
Proof.
  intros s e. unfold writer.
  destruct e; try (right; intros (u & E & _); discriminate).
  destruct (pc (th s t)) eqn:Hp;
    try (right; intros (u & E & P); inversion E; subst; congruence).
  left; eauto.
Qed.

Lemma announcing_step : forall s e s1 t,
  Inv s -> Inv2 s -> exec s e = Some s1 ->
  pc (th s t) = D265w -> pc (th s1 t) = D265w ->
  announcing s -> announcing s1.
Proof.
  intros s e s1 t I J H Ht Ht1 (w & Hw).
  pose proof (inv_sleeper_queued _ J t Ht) as Q.
  destruct (touches e w) eqn:Tw.
  - destruct Hw as [Hw|Hw].
    + exists w. revert Ht1.
      touched e w Tw; compute_step H Hw; try rewrite Hw; simpl; intros;
        try discriminate; auto; try congruence.
    + assert (St : forall x, pc (th s x) = D265w -> x = t)
        by (intros; eapply inv_one_sleeper; eauto).
      exists w. revert Ht1 Q.
      touched e w Tw; compute_step H Hw; try rewrite Hw; simpl; intros;
        try discriminate; auto; try congruence.
      * exfalso. destruct (switch_cond (sh s)); [contradiction | discriminate].
      * exfalso. rewrite (St w0) in Ht1 by assumption.
        rewrite upd_same in Ht1. discriminate.
  - exists w. now rewrite (exec_untouched _ _ _ _ H Tw).
Qed.

Lemma sleeper_step : forall s e s1,
  Inv s -> Inv2 s -> exec s e = Some s1 ->
  forall t, pc (th s1 t) = D265w ->
            gil_last_holder (sh s1) = tstate_of t \/ announcing s1.
Proof.
  intros s e s1 I J H t Ht1.
  destruct (exec_writes _ _ _ H) as (W & _).
  destruct (falls_asleep _ _ _ _ H Ht1) as [Ht | (E & Ht)].
  - destruct (inv_sleeper _ J t Ht) as [L | A].
    + destruct (writer_T305_dec s e) as [(u & E & Hu) | N].
      * right. exists u. left. subst e.
        compute_step H Hu; reflexivity.
      * left. rewrite W; auto.
    + right. eapply announcing_step; eauto.
  - left. rewrite W.
    + now apply inv_before_sleep.
    + intros (u & E' & Hu). subst e. inversion E'; subst. congruence.
Qed.

Lemma released_step : forall s e s1,
  Inv s -> Inv2 s -> exec s e = Some s1 ->
  forall t, released (pc (th s1 t)) = true -> gil_locked (sh s1) = 0.
Proof.
  intros s e s1 I J H t.
  pose proof (inv_released _ J t) as Old.
  destruct (touches e t) eqn:Ht.
  - destruct (pc (th s t)) eqn:Hpc; touched e t Ht; compute_step H Hpc;
      try rewrite Hpc; simpl; intros; try discriminate; auto.
  - rewrite (exec_untouched _ _ _ _ H Ht). intros Hc.
    destruct (exec_writes _ _ _ H) as (_ & _ & _ & W).
    assert (G : holds_gil_mutex (pc (th s t)) = true)
      by (destruct (pc (th s t)); simpl in *; congruence).
    rewrite W; auto; eapply no_foreign_gil_mutex_writer; eauto.
Qed.

Lemma wake_gil_cond_gil_queue : forall s w b s' t,
  wake_gil_cond s w b = Some s' -> t <> w ->
  In t (gil_cond (sh s)) -> In t (gil_cond (sh s')).
Proof.
  unfold wake_gil_cond; intros s w b s' t H Hn Hin.
  destruct (pc (th s w)); try discriminate. inversion H; subst; simpl.
  now apply in_remove_other.
Qed.

Lemma wake_switch_cond_gil_queue : forall s w s',
  wake_switch_cond s w = Some s' -> gil_cond (sh s') = gil_cond (sh s).
Proof.
  unfold wake_switch_cond; intros s w s' H.
  destruct (pc (th s w)); try discriminate. inversion H; subst; reflexivity.
Qed.

Lemma stmt_gil_queue : forall s u s' t,
  stmt s u = Some s' ->
  In t (gil_cond (sh s)) -> In t (gil_cond (sh s')).
Proof.
  unfold stmt, take_gil, drop_gil; intros s u s' t H Hin.
  destruct (pc (th s u)); try discriminate;
    repeat split_if; try discriminate; inversion H; subst; simpl; auto.
  apply in_or_app; auto.
Qed.

(** Who is queued on [gil_cond] stays queued until it is woken or its
    wait expires. *)
Lemma exec_gil_queue : forall s e s' t,
  exec s e = Some s' -> touches e t = false ->
  In t (gil_cond (sh s)) -> In t (gil_cond (sh s')).
Proof.
  unfold exec; intros s e s' t H Ht Hin. destruct (fatal s); [discriminate|].
  destruct e; simpl in *;
    try (apply orb_false_iff in Ht; destruct Ht as [Ht Ht']; apply Pos.eqb_neq in Ht');
    try apply Pos.eqb_neq in Ht.
  - destruct (pc (th s t0)); try discriminate.
    destruct (_ || _)%bool; try discriminate. inversion H; subst; auto.
  - destruct (pc (th s t0)); try discriminate. inversion H; subst; auto.
  - eapply stmt_gil_queue; eauto.
  - destruct (pc (th s t0)); try discriminate.
    + destruct (mem_tid _ _); try discriminate.
      destruct (wake_switch_cond s w) as [s1|] eqn:Hw; try discriminate.
      inversion H; subst; simpl.
      now rewrite (wake_switch_cond_gil_queue _ _ _ Hw).
    + destruct (mem_tid _ _); try discriminate.
      destruct (wake_gil_cond s w false) as [s1|] eqn:Hw; try discriminate.
      inversion H; subst; simpl.
      eapply wake_gil_cond_gil_queue; eauto.
  - eapply wake_gil_cond_gil_queue; eauto.
  - destruct (pc (th s t0)); try discriminate.
    + eapply wake_gil_cond_gil_queue; eauto.
    + now rewrite (wake_switch_cond_gil_queue _ _ _ H).
  - destruct (in_foreign_code _); try discriminate. inversion H; subst; auto.
  - destruct (_ && _)%bool; try discriminate. inversion H; subst; auto.
  - inversion H; subst; auto.
Qed.

Lemma waiter_queued_step : forall s e s1,
  Inv s -> Inv2 s -> exec s e = Some s1 ->
  forall t, pc (th s1 t) = T289w -> In t (gil_cond (sh s1)).
Proof.
  intros s e s1 I J H t.
  pose proof (inv_waiter_queued _ J t) as Old.
  destruct (touches e t) eqn:Ht.
  - destruct (pc (th s t)) eqn:Hpc; touched e t Ht; compute_step H Hpc;
      try rewrite Hpc; simpl; intros; try discriminate; auto.
    apply in_or_app; right; left; reflexivity.
  - rewrite (exec_untouched _ _ _ _ H Ht). intros Hc.
    eapply exec_gil_queue; eauto.
Qed.

Lemma exec_preserves2 : forall s e s1,
  Inv s -> Inv2 s -> exec s e = Some s1 -> Inv2 s1.
Proof.
  intros s e s1 I J H. constructor.
  - eapply request_cleared_step; eauto.
  - eapply new_holder_step; eauto.
  - eapply before_sleep_step; eauto.
  - eapply sleeper_step; eauto.
  - eapply one_sleeper_step; eauto.
  - eapply sleeper_queued_step; eauto.
  - eapply released_step; eauto.
  - eapply waiter_queued_step; eauto.
Qed.

Lemma boot_Inv2 : forall s, initial s -> Inv2 s.
Proof.
  intros s (g & ths & _ & ->). unfold boot.
  constructor; simpl; intros; discriminate.
Qed.

Lemma steps_Inv2 : forall P s s',
  steps P s s' -> Inv s -> Inv2 s -> Inv2 s'.
Proof.
  induction 1; intros; auto.
  apply IHsteps.
  - eapply exec_preserves; eauto.
  - eapply exec_preserves2; eauto.
Qed.

Lemma reachable_Inv2 : forall s, reachable s -> Inv2 s.
Proof.
  intros s (s0 & H0 & Hs).
  eapply steps_Inv2; eauto using boot_Inv, boot_Inv2.
Qed.

(** ** What the second invariant gives *)

(** X11.  The thread that has taken the GIL starts with no drop request
    pending: from lines 312-314 until it unlocks [gil_mutex] at line 319,
    [gil_drop_request] is 0, whatever the other threads do meanwhile.  A
    request made against the previous holder does not carry over. *)
Theorem drop_request_cleared_for_new_holder : forall s t,
  reachable s ->
  request_cleared (pc (th s t)) = true ->
  gil_drop_request (sh s) = false.
Proof.
  intros s t Hs. apply (inv_request_cleared s (reachable_Inv2 s Hs)).
Qed.

Lemma drop_request_cleared_for_new_holder_witness :
  gil_drop_request (sh (state_after handoff_cleared)) = false.
Proof.
  apply (drop_request_cleared_for_new_holder (state_after handoff_cleared) tB).
  - apply state_after_reachable. vm_compute. discriminate.
  - vm_compute. reflexivity.
Defined.

(** The request was set when [B] took the GIL. *)
Example drop_request_was_pending :
  gil_drop_request (sh (state_after handoff_announced)) = true /\
  pc (th (state_after handoff_cleared) tB) = T315.
Proof. vm_compute. split; reflexivity. Qed.

(** X12.  [gil_last_holder] changes at line 305 and nowhere else, and
    line 305 always changes it: the step of a reachable state alters the
    variable if and only if it is line 305 of some thread, which then
    stores its own thread state, different from the one stored before,
    and goes on to count the switch at line 306. *)
Theorem last_holder_changes_only_at_line_305 : forall s e s',
  reachable s -> exec s e = Some s' ->
  (gil_last_holder (sh s') <> gil_last_holder (sh s) <-> writer s e T305) /\
  (forall u, e = Run u -> pc (th s u) = T305 ->
             gil_last_holder (sh s') = tstate_of u /\ pc (th s' u) = T306).
Proof.
  intros s e s' Hs H.
  pose proof (reachable_Inv _ Hs) as I. pose proof (reachable_Inv2 _ Hs) as J.
  assert (W : forall u, e = Run u -> pc (th s u) = T305 ->
                gil_last_holder (sh s') = tstate_of u /\ pc (th s' u) = T306).
  { intros u -> Hu. pose proof (inv_take_tstate _ I u) as Hts.
    rewrite Hu in Hts. specialize (Hts eq_refl).
    compute_step H Hu. auto. }
  split; [split|exact W].
  - intros Hc. destruct (writer_T305_dec s e) as [Y|N]; [exact Y|].
    exfalso. apply Hc. destruct (exec_writes _ _ _ H) as (W1 & _). auto.
  - intros (u & E & Hu). destruct (W u E Hu) as (-> & _).
    intros E'. apply (inv_new_holder _ J u Hu). congruence.
Qed.

Lemma last_holder_changes_only_at_line_305_witness :
  gil_last_holder (sh (state_after (first_take_window ++ [Run tA; Run tA])))
    = tstate_of tA /\
  pc (th (state_after (first_take_window ++ [Run tA; Run tA])) tA) = T306.
Proof.
  apply (proj2 (last_holder_changes_only_at_line_305
                  (state_after (first_take_window ++ [Run tA])) (Run tA)
                  (state_after (first_take_window ++ [Run tA; Run tA]))
                  ltac:(apply state_after_reachable; vm_compute; discriminate)
                  ltac:(vm_compute; reflexivity)) tA).
  - reflexivity.
  - vm_compute. reflexivity.
Defined.

(** X13.  The wait of line 265 is not forgotten: in every reachable
    state at most one thread is asleep on [switch_cond]; it is queued on
    the condition; and either it is still [gil_last_holder], or a thread
    that has just replaced it is between lines 305 and 309, holding
    [switch_mutex], with the [COND_SIGNAL] of line 309 still ahead. *)
Theorem handoff_sleeper_not_forgotten : forall s t,
  reachable s -> pc (th s t) = D265w ->
  In t (switch_cond (sh s)) /\
  (forall u, pc (th s u) = D265w -> u = t) /\
  (gil_last_holder (sh s) = tstate_of t \/
   exists u, (pc (th s u) = T306 \/ pc (th s u) = T309) /\
             switch_mutex (sh s) = Some u).
Proof.
  intros s t Hs Ht.
  pose proof (reachable_Inv _ Hs) as I. pose proof (reachable_Inv2 _ Hs) as J.
  split; [now apply inv_sleeper_queued|].
  split; [intros u Hu; eapply inv_one_sleeper; eauto|].
  destruct (inv_sleeper _ J t Ht) as [L | (u & Hu)]; [left; exact L|].
  right. exists u. split; [exact Hu|].
  apply (inv_switch_mutex_held _ I). destruct Hu as [Hu|Hu]; rewrite Hu; reflexivity.
Qed.

Lemma handoff_sleeper_not_forgotten_witness :
  In tA (switch_cond (sh (state_after handoff_announced))) /\
  (forall u, pc (th (state_after handoff_announced) u) = D265w -> u = tA) /\
  (gil_last_holder (sh (state_after handoff_announced)) = tstate_of tA \/
   exists u, (pc (th (state_after handoff_announced) u) = T306 \/
              pc (th (state_after handoff_announced) u) = T309) /\
             switch_mutex (sh (state_after handoff_announced)) = Some u).
Proof.
  apply (handoff_sleeper_not_forgotten (state_after handoff_announced) tA).
  - apply state_after_reachable. vm_compute. discriminate.
  - vm_compute. reflexivity.
Defined.

Lemma mem_tid_In : forall t q, In t q -> mem_tid t q = true.
Proof.
  intros t q H. unfold mem_tid. apply existsb_exists.
  exists t. split; [exact H | apply Pos.eqb_refl].
Qed.

(** X14.  The [COND_SIGNAL] of line 309 reaches the thread that waits at
    line 265: when a thread sleeps there and the new holder is at line
    309, the signal cannot go to nobody or to anybody else; it wakes the
    sleeper, which finds the signaller as [gil_last_holder]. *)
Theorem switch_signal_wakes_the_sleeper : forall s t u,
  reachable s -> fatal s = None ->
  pc (th s t) = D265w -> pc (th s u) = T309 ->
  exec s (Run u) = None /\
  (forall w, w <> t -> exec s (Wake u w) = None) /\
  exists s', exec s (Wake u t) = Some s' /\
             pc (th s' t) = D265r /\ pc (th s' u) = T310 /\
             gil_last_holder (sh s') = tstate_of u /\
             gil_last_holder (sh s') <> tstate_of t.
Proof.
  intros s t u Hs Hf Ht Hu.
  pose proof (reachable_Inv _ Hs) as I. pose proof (reachable_Inv2 _ Hs) as J.
  pose proof (inv_sleeper_queued _ J t Ht) as Q.
  pose proof (inv_published _ I u) as P. rewrite Hu in P. specialize (P eq_refl).
  assert (Htu : t <> u) by (intros ->; congruence).
  split; [|split].
  - rewrite exec_live by assumption. simpl. unfold stmt, take_gil. rewrite Hu.
    destruct (switch_cond (sh s)); [contradiction | reflexivity].
  - intros w Hw. rewrite exec_live by assumption. simpl. rewrite Hu.
    destruct (mem_tid w (switch_cond (sh s))); [|reflexivity].
    unfold wake_switch_cond.
    destruct (pc (th s w)) eqn:Hpw; try reflexivity.
    elim Hw. eapply inv_one_sleeper; eauto.
  - rewrite exec_live by assumption. simpl. rewrite Hu.
    rewrite (mem_tid_In _ _ Q). unfold wake_switch_cond. rewrite Ht.
    eexists. split; [reflexivity|]. simpl.
    rewrite upd_other by assumption. rewrite upd_same.
    rewrite upd_same. simpl.
    repeat split; auto.
    rewrite P. intros E. apply tstate_of_inj in E. congruence.
Qed.

Lemma switch_signal_wakes_the_sleeper_witness :
  exec (state_after handoff_announced) (Run tB) = None /\
  (forall w, w <> tA -> exec (state_after handoff_announced) (Wake tB w) = None) /\
  exists s', exec (state_after handoff_announced) (Wake tB tA) = Some s' /\
             pc (th s' tA) = D265r /\ pc (th s' tB) = T310 /\
             gil_last_holder (sh s') = tstate_of tB /\
             gil_last_holder (sh s') <> tstate_of tA.
Proof.
  apply (switch_signal_wakes_the_sleeper (state_after handoff_announced) tA tB).
  - apply state_after_reachable. vm_compute. discriminate.
  - vm_compute. reflexivity.
  - vm_compute. reflexivity.
  - vm_compute. reflexivity.
Defined.

(** ** Calls that run to their end *)

Lemma no_successor_yet_sound : forall t s e,
  no_successor_yet_b t s e = true -> no_successor_yet t s e.
Proof.
  unfold no_successor_yet_b, no_successor_yet; intros t s e H.
  apply andb_true_iff in H. destruct H as [H1 H2].
  apply N.eqb_eq in H1. split; [exact H1|].
  intros ->. rewrite Pos.eqb_refl in H2. discriminate.
Qed.

Lemma forced_handoff_without_spurious_wakeup_witness :
  in_drop (pc (th (state_after (contended ++ CallDrop tA (tstate_of tA) :: drop_waits)) tA))
    = true /\
  pc (th (state_after (contended ++ CallDrop tA (tstate_of tA) :: drop_waits)) tA)
    <> D265r /\
  pc (th (state_after (contended ++ CallDrop tA (tstate_of tA) :: drop_waits)) tA)
    <> D266.
Proof.
  apply (forced_handoff_without_spurious_wakeup tA
           (state_after (contended ++ [CallDrop tA (tstate_of tA)]))
           (state_after (contended ++ CallDrop tA (tstate_of tA) :: drop_waits))).
  - apply state_after_reachable. vm_compute. discriminate.
  - vm_compute. reflexivity.
  - vm_compute. reflexivity.
  - vm_compute. reflexivity.
  - apply run_checked_steps with (p := no_successor_yet_b tA) (evs := drop_waits).
    + apply no_successor_yet_sound.
    + vm_compute. reflexivity.
Defined.

(** [A] is asleep at line 265 while [B], awake, has the GIL free before
    it and has not yet taken it. *)
Example handoff_waits_for_B :
  pc (th (state_after (contended ++ CallDrop tA (tstate_of tA) :: drop_waits)) tA)
    = D265w /\
  pc (th (state_after (contended ++ CallDrop tA (tstate_of tA) :: drop_waits)) tB)
    = T304.
Proof. vm_compute. split; reflexivity. Qed.

Lemma take_gil_returns_when_free_witness :
  exists n s',
    run (state_after (take_free tA ++ drop_free tA))
        (CallTake tB (tstate_of tB) :: runs_of n tB) = Some s' /\
    pc (th s' tB) = Holding /\
    errno (th s' tB) = errno (th (state_after (take_free tA ++ drop_free tA)) tB) /\
    gil_locked (sh s') = 1 /\ gil_last_holder (sh s') = tstate_of tB.
Proof.
  apply (take_gil_returns_when_free (state_after (take_free tA ++ drop_free tA)) tB);
    vm_compute; reflexivity.
Defined.

(** X10.  [drop_gil] does return: the holder of the GIL that calls it on
    its own thread state while nobody has asked for the GIL, nobody
    sleeps on [gil_cond] and [gil_mutex] is free, passes both checks,
    runs through lines 252-261 on its own and comes back at once, without
    touching [switch_mutex]: the GIL is free, the caller is still
    [gil_last_holder] and the switch number is as it was. *)
Theorem drop_gil_returns_when_unasked : forall s t,
  reachable s -> fatal s = None -> pc (th s t) = Holding ->
  gil_mutex (sh s) = None -> gil_cond (sh s) = [] ->
  gil_drop_request (sh s) = false ->
  exists s',
    run s (drop_free t) = Some s' /\
    fatal s' = None /\ pc (th s' t) = Idle /\
    gil_locked (sh s') = 0 /\ gil_mutex (sh s') = None /\
    gil_last_holder (sh s') = tstate_of t /\
    gil_switch_number (sh s') = gil_switch_number (sh s) /\
    switch_mutex (sh s') = switch_mutex (sh s) /\
    switch_cond (sh s') = switch_cond (sh s).
Proof.
  intros s t Hs Hf Hpc Hgm Hgc Hrq.
  apply reachable_Inv in Hs.
  pose proof (inv_owner_locked _ Hs t) as Hl. rewrite Hpc in Hl. specialize (Hl eq_refl).
  pose proof (inv_published _ Hs t) as Hp. rewrite Hpc in Hp. specialize (Hp eq_refl).
  clear Hs. destruct s as [g f fa].
  destruct g as [iv lk sw lh gc gm sc sm rq pa].
  simpl in *. subst fa lk gm gc rq lh.
  destruct (f t) as [p0 ts0 er0 to0 sv0 wu0 en0 ae0] eqn:E.
  simpl in Hpc. subst p0.
  unfold drop_free, runs_of. simpl repeat.
  do 8 run_step.
  eexists; split; [reflexivity|]; setters; rewrite ?upd_same; cbn; repeat split.
Qed.

Lemma drop_gil_returns_when_unasked_witness :
  exists s',
    run (state_after (take_free tA)) (drop_free tA) = Some s' /\
    fatal s' = None /\ pc (th s' tA) = Idle /\
    gil_locked (sh s') = 0 /\ gil_mutex (sh s') = None /\
    gil_last_holder (sh s') = tstate_of tA /\
    gil_switch_number (sh s') = gil_switch_number (sh (state_after (take_free tA))) /\
    switch_mutex (sh s') = switch_mutex (sh (state_after (take_free tA))) /\
    switch_cond (sh s') = switch_cond (sh (state_after (take_free tA))).
Proof.
  apply (drop_gil_returns_when_unasked (state_after (take_free tA)) tA).
  - apply state_after_reachable. vm_compute. discriminate.
  - vm_compute. reflexivity.
  - vm_compute. reflexivity.
  - vm_compute. reflexivity.
  - vm_compute. reflexivity.
  - vm_compute. reflexivity.
Defined.

(** X15.  [gil_locked] alternates: line 302 finds it 0 and makes it 1,
    line 253 finds it 1 and makes it 0, and no other step of a reachable
    state changes it.  The GIL is never taken while taken nor released
    while free. *)
Theorem gil_locked_alternates : forall s e s',
  reachable s -> exec s e = Some s' ->
  (writer s e T302 <-> gil_locked (sh s) = 0 /\ gil_locked (sh s') = 1) /\
  (writer s e D253 <-> gil_locked (sh s) = 1 /\ gil_locked (sh s') = 0).
Proof.
  intros s e s' Hs H. pose proof (reachable_Inv _ Hs) as I.
  assert (T : forall u, e = Run u -> pc (th s u) = T302 ->
                gil_locked (sh s) = 0 /\ gil_locked (sh s') = 1).
  { intros u -> Hu. pose proof (inv_ready_free _ I u) as R.
    rewrite Hu in R. specialize (R eq_refl).
    compute_step H Hu. auto. }
  assert (D : forall u, e = Run u -> pc (th s u) = D253 ->
                gil_locked (sh s) = 1 /\ gil_locked (sh s') = 0).
  { intros u -> Hu. pose proof (inv_owner_locked _ I u) as R.
    rewrite Hu in R. specialize (R eq_refl).
    compute_step H Hu. auto. }
  assert (C : gil_locked (sh s') <> gil_locked (sh s) ->
              writer s e T302 \/ writer s e D253).
  { intros Hc. destruct (exec_changes _ _ _ H) as (u & -> & Hu); [tauto|].
    destruct (stmt_changes _ _ _ Hu) as (C1 & _).
    destruct (C1 Hc); [left | right]; exists u; auto. }
  split; split.
  - intros (u & E & Hu). eauto.
  - intros [H0 H1]. destruct C as [Y | (u & E & Hu)]; [lia | exact Y |].
    destruct (D u E Hu). lia.
  - intros (u & E & Hu). eauto.
  - intros [H1 H0]. destruct C as [(u & E & Hu) | Y]; [lia | | exact Y].
    destruct (T u E Hu). lia.
Qed.

Lemma gil_locked_alternates_witness :
  gil_locked (sh (state_after first_take_at_302)) = 0 /\
  gil_locked (sh (state_after (first_take_at_302 ++ [Run tA]))) = 1.
Proof.
  apply (proj1 (proj1 (gil_locked_alternates
                  (state_after first_take_at_302) (Run tA)
                  (state_after (first_take_at_302 ++ [Run tA]))
                  ltac:(apply state_after_reachable; vm_compute; discriminate)
                  ltac:(vm_compute; reflexivity)))).
  exists tA. split; [reflexivity | vm_compute; reflexivity].
Defined.

Lemma exec_pending : forall s e s',
  exec s e = Some s' ->
  pending_async_exc (sh s') <> pending_async_exc (sh s) ->
  exists u, e = Run u /\ pc (th s u) = T315 /\ async_exc (th s u) = true /\
            pending_async_exc (sh s') = true.
Proof.
  unfold exec; intros s e s' H. destruct (fatal s); [discriminate|].
  destruct e; simpl in H.
  - destruct (pc (th s t)); try discriminate.
    destruct (_ || _)%bool; try discriminate. inversion H; subst; simpl. tauto.
  - destruct (pc (th s t)); try discriminate. inversion H; subst; simpl. tauto.
  - intros Hc. exists t. split; [reflexivity|]. revert Hc.
    unfold stmt, take_gil, drop_gil in H.
    destruct (pc (th s t)); try discriminate;
      repeat split_if; try discriminate; inversion H; subst; simpl;
      intros; try congruence; auto.
  - destruct (pc (th s t)); try discriminate;
      (destruct (mem_tid _ _); try discriminate);
      unfold wake_switch_cond, wake_gil_cond in H;
      (destruct (pc (th s w)); try discriminate);
      inversion H; subst; simpl; tauto.
  - unfold wake_gil_cond in H. destruct (pc (th s t)); try discriminate.
    inversion H; subst; simpl; tauto.
  - unfold wake_switch_cond, wake_gil_cond in H.
    destruct (pc (th s t)); try discriminate; inversion H; subst; simpl; tauto.
  - destruct (in_foreign_code _); try discriminate. inversion H; subst; simpl; tauto.
  - destruct (_ && _)%bool; try discriminate. inversion H; subst; simpl; tauto.
  - inversion H; subst; simpl; tauto.
Qed.

(** X16.  The hook [_PyEval_SignalAsyncExc] is called at one place only:
    line 316, by a thread whose [tstate->async_exc] is set, which has
    just taken the GIL ([gil_locked] is 1 and it is [gil_last_holder]) and
    still holds [gil_mutex].  No other step of [take_gil], none of
    [drop_gil] and nothing the other threads do raises the record of the
    call. *)
Theorem async_exc_signalled_by_new_holder : forall s e s',
  reachable s -> exec s e = Some s' ->
  pending_async_exc (sh s') <> pending_async_exc (sh s) ->
  exists u, e = Run u /\ pc (th s u) = T315 /\ async_exc (th s u) = true /\
            pending_async_exc (sh s') = true /\
            gil_mutex (sh s) = Some u /\ gil_locked (sh s) = 1 /\
            gil_last_holder (sh s) = tstate_of u.
Proof.
  intros s e s' Hs H Hc. apply reachable_Inv in Hs.
  destruct (exec_pending _ _ _ H Hc) as (u & E & Hu & Ha & Hp).
  exists u. repeat split; auto.
  - apply (inv_gil_mutex_held _ Hs). rewrite Hu; reflexivity.
  - apply (inv_owner_locked _ Hs u). rewrite Hu; reflexivity.
  - apply (inv_published _ Hs u). rewrite Hu; reflexivity.
Qed.

Lemma async_exc_signalled_by_new_holder_witness :
  exists u, Run tA = Run u /\ pc (th (state_after async_take) u) = T315 /\
            async_exc (th (state_after async_take) u) = true /\
            pending_async_exc (sh (state_after (async_take ++ [Run tA]))) = true /\
            gil_mutex (sh (state_after async_take)) = Some u /\
            gil_locked (sh (state_after async_take)) = 1 /\
            gil_last_holder (sh (state_after async_take)) = tstate_of u.
Proof.
  apply (async_exc_signalled_by_new_holder
           (state_after async_take) (Run tA) (state_after (async_take ++ [Run tA]))).
  - apply state_after_reachable. vm_compute. discriminate.
  - vm_compute. reflexivity.
  - vm_compute. discriminate.
Defined.

(** ** The two handoffs, run through *)

(* One event of a run in which two threads move. *)
Ltac lookups2 :=
  repeat first [ rewrite upd_same
               | rewrite upd_other by (assumption || (apply not_eq_sym; assumption))
               | rewrite Pos.eqb_refl | rewrite N.eqb_refl ];
  repeat match goal with
         | H : ?f ?t = mk_thread _ _ _ _ _ _ _ _ |- context [?f ?t] => rewrite H
         end.

Ltac run_step2 :=
  rewrite run_cons; rewrite exec_live by reflexivity;
  unfold live, stmt, wake_switch_cond; setters; lookups2; setters;
  unfold take_gil, drop_gil; setters; lookups2; setters; cbn;
  lookups2; cbn.

(** X17.  The forced switch completes: when the releasing thread sleeps
    at line 265 and the thread that has taken the GIL is at line 309, the
    signal, the unlock of line 310 and lines 265-266 of the sleeper run
    through, and [drop_gil] returns with the other thread as
    [gil_last_holder] and [switch_mutex] free again. *)
Theorem forced_handoff_completes : forall s t u,
  reachable s -> fatal s = None ->
  pc (th s t) = D265w -> pc (th s u) = T309 ->
  exists s',
    run s [Wake u t; Run u; Run t; Run t] = Some s' /\
    pc (th s' t) = Idle /\ pc (th s' u) = T312 /\
    gil_last_holder (sh s') = tstate_of u /\
    gil_last_holder (sh s') <> tstate_of t /\
    gil_locked (sh s') = 1 /\
    switch_mutex (sh s') = None.
Proof.
  intros s t u Hs Hf Ht Hu.
  pose proof (reachable_Inv _ Hs) as I. pose proof (reachable_Inv2 _ Hs) as J.
  pose proof (inv_sleeper_queued _ J t Ht) as Q. apply mem_tid_In in Q.
  pose proof (inv_published _ I u) as P. rewrite Hu in P. specialize (P eq_refl).
  pose proof (inv_owner_locked _ I u) as L. rewrite Hu in L. specialize (L eq_refl).
  assert (Htu : t <> u) by (intros ->; congruence).
  assert (Hne : tstate_of u <> tstate_of t)
    by (intros E; apply tstate_of_inj in E; congruence).
  clear Hs I J. destruct s as [g f fa].
  destruct g as [iv lk sw lh gc gm sc sm rq pa].
  simpl in *. subst fa lk lh.
  destruct (f t) as [p0 ts0 er0 to0 sv0 wu0 en0 ae0] eqn:Et.
  destruct (f u) as [p1 ts1 er1 to1 sv1 wu1 en1 ae1] eqn:Eu.
  simpl in Ht, Hu. subst p0 p1.
  run_step2. rewrite Q. cbn. lookups2. cbn.
  do 3 run_step2.
  eexists; split; [reflexivity|]; setters; lookups2; cbn; repeat split; assumption.
Qed.

Lemma forced_handoff_completes_witness :
  exists s',
    run (state_after handoff_announced) [Wake tB tA; Run tB; Run tA; Run tA] = Some s' /\
    pc (th s' tA) = Idle /\ pc (th s' tB) = T312 /\
    gil_last_holder (sh s') = tstate_of tB /\
    gil_last_holder (sh s') <> tstate_of tA /\
    gil_locked (sh s') = 1 /\
    switch_mutex (sh s') = None.
Proof.
  apply (forced_handoff_completes (state_after handoff_announced) tA tB).
  - apply state_after_reachable. vm_compute. discriminate.
  - vm_compute. reflexivity.
  - vm_compute. reflexivity.
  - vm_compute. reflexivity.
Defined.

(** X18.  The signal of line 254 hands the GIL over: when the releasing
    thread is at line 254, a thread sleeps in the timed wait of line 289
    and nobody is in the forced switch, then the signal, the unlock of
    line 258 and the rest of [take_gil] of the woken thread run through:
    it sets no drop request, finds the GIL free, and returns holding it,
    as [gil_last_holder], with the [errno] it had saved on entry. *)
Theorem drop_gil_signal_hands_over : forall s t w,
  reachable s -> fatal s = None ->
  pc (th s t) = D254 -> pc (th s w) = T289w ->
  switch_mutex (sh s) = None -> switch_cond (sh s) = [] ->
  exists n s',
    run s (Wake t w :: Run t :: runs_of n w) = Some s' /\
    pc (th s' w) = Holding /\ pc (th s' t) = D261 /\
    gil_locked (sh s') = 1 /\ gil_last_holder (sh s') = tstate_of w /\
    gil_mutex (sh s') = None /\
    errno (th s' w) = err (th s w).
Proof.
  intros s t w Hs Hf Ht Hw Hsm Hsc.
  pose proof (reachable_Inv _ Hs) as I. pose proof (reachable_Inv2 _ Hs) as J.
  pose proof (inv_waiter_queued _ J w Hw) as Q. apply mem_tid_In in Q.
  pose proof (inv_released _ J t) as L. rewrite Ht in L. specialize (L eq_refl).
  pose proof (inv_take_tstate _ I w) as Hts. rewrite Hw in Hts. specialize (Hts eq_refl).
  assert (Htw : t <> w) by (intros ->; congruence).
  clear Hs I J. destruct s as [g f fa].
  destruct g as [iv lk sw lh gc gm sc sm rq pa].
  simpl in *. subst fa lk sm sc.
  destruct (f t) as [p0 ts0 er0 to0 sv0 wu0 en0 ae0] eqn:Et.
  destruct (f w) as [p1 ts1 er1 to1 sv1 wu1 en1 ae1] eqn:Ew.
  simpl in Ht, Hw, Hts. subst p0 p1 ts1.
  assert (C : lh = tstate_of w \/ lh = NULL \/
              exists q, lh = N.pos q /\ Pos.eqb w q = false).
  { destruct lh as [|q]; [right; left; reflexivity|].
    destruct (Pos.eqb_spec w q) as [->|Hq]; [left; reflexivity|].
    right; right. exists q. split; [reflexivity|]. now apply Pos.eqb_neq. }
  destruct C as [-> | [-> | (q & -> & Hq)]].
  - exists 12%nat. unfold runs_of. simpl repeat.
    run_step2. rewrite Q. unfold wake_gil_cond. setters. lookups2. cbn. lookups2. cbn.
    do 9 run_step2.
    destruct rq; run_step2; destruct ae1; do 3 run_step2;
      (eexists; split; [reflexivity|]; setters; lookups2; cbn; repeat split).
  - exists 14%nat. unfold runs_of. simpl repeat.
    run_step2. rewrite Q. unfold wake_gil_cond. setters. lookups2. cbn. lookups2. cbn.
    do 11 run_step2.
    destruct rq; run_step2; destruct ae1; do 3 run_step2;
      (eexists; split; [reflexivity|]; setters; lookups2; cbn; repeat split).
  - exists 14%nat. unfold runs_of. simpl repeat.
    run_step2. rewrite Q. unfold wake_gil_cond. setters. lookups2. cbn. lookups2. cbn.
    do 7 run_step2. rewrite Hq. cbn.
    do 4 run_step2.
    destruct rq; run_step2; destruct ae1; do 3 run_step2;
      (eexists; split; [reflexivity|]; setters; lookups2; cbn; repeat split).
Qed.

Lemma drop_gil_signal_hands_over_witness :
  exists n s',
    run (state_after release_signal) (Wake tA tB :: Run tA :: runs_of n tB) = Some s' /\
    pc (th s' tB) = Holding /\ pc (th s' tA) = D261 /\
    gil_locked (sh s') = 1 /\ gil_last_holder (sh s') = tstate_of tB /\
    gil_mutex (sh s') = None /\
    errno (th s' tB) = err (th (state_after release_signal) tB).
Proof.
  apply (drop_gil_signal_hands_over (state_after release_signal) tA tB).
  - apply state_after_reachable. vm_compute. discriminate.
  - vm_compute. reflexivity.
  - vm_compute. reflexivity.
  - vm_compute. reflexivity.
  - vm_compute. reflexivity.
  - vm_compute. reflexivity.
Defined.
